(** * Page Assets Downloader: scanner, formatter and download orchestrator

    A shallow embedding of [content.js] (the page scanner) and
    [background.js] (the JavaScript formatter and the download manager),
    with the properties of the asset-collection-and-delivery pipeline.

    JavaScript strings are modelled as lists of code units restricted to
    the range 0..255 ([list ascii]).  Host facilities (the [URL]
    constructor, the DOM, [fetch], [Blob] URLs, [chrome.downloads], timers,
    the js-beautify library) are parameters of the model. *)

From Stdlib Require Import String Ascii DecimalString Bool Arith Lia List.
Import ListNotations.

Set Implicit Arguments.

(** ** JavaScript strings *)

Module JsString.

Definition jsstr := list ascii.

(** A string literal of the source. *)
Notation "'js' s" := (list_ascii_of_string s) (at level 1, s at level 0, only parsing).

Definition lf : ascii := "010"%char.

Definition code_in (lo hi : nat) (c : ascii) : bool :=
  (lo <=? nat_of_ascii c) && (nat_of_ascii c <=? hi).

Definition is_lf (c : ascii) : bool := Ascii.eqb c lf.

(** [\s] of a regular expression, and the characters [trim] strips: tab,
    line feed, vertical tab, form feed, carriage return, space and the
    no-break space (the white space below code unit 256). *)
Definition is_space (c : ascii) : bool :=
  code_in 9 13 c || code_in 32 32 c || code_in 160 160 c.

(** [\w] without the [u] flag: letters, digits and the underscore. *)
Definition is_word (c : ascii) : bool :=
  code_in 97 122 c || code_in 65 90 c || code_in 48 57 c || code_in 95 95 c.

(** [[a-zA-Z_$]]. *)
Definition is_ident_start (c : ascii) : bool :=
  code_in 97 122 c || code_in 65 90 c || code_in 95 95 c || code_in 36 36 c.

Definition str_eqb (a b : jsstr) : bool :=
  if list_eq_dec ascii_dec a b then true else false.

(** [s.startsWith(p)]. *)
Fixpoint startsWith (p s : jsstr) : bool :=
  match p, s with
  | [], _ => true
  | c :: p', d :: s' => Ascii.eqb c d && startsWith p' s'
  | _ :: _, [] => false
  end.

(** [s.endsWith(p)]. *)
Definition endsWith (p s : jsstr) : bool := startsWith (rev p) (rev s).

(** [s.includes(p)]. *)
Fixpoint includes (p s : jsstr) : bool :=
  startsWith p s || match s with [] => false | _ :: s' => includes p s' end.

(** [s.replace(/c/g, rep)] for a single literal character [c]. *)
Definition replace_char (c : ascii) (rep : jsstr) (s : jsstr) : jsstr :=
  flat_map (fun x => if Ascii.eqb x c then rep else [x]) s.

(** [s.replace(/[^...]/g, rep)] for a character class given by [p]. *)
Definition replace_class (p : ascii -> bool) (rep : jsstr) (s : jsstr) : jsstr :=
  flat_map (fun x => if p x then rep else [x]) s.

(** The length of the longest prefix of [s] made of characters in [p]. *)
Fixpoint run_length (p : ascii -> bool) (s : jsstr) : nat :=
  match s with
  | c :: r => if p c then S (run_length p r) else 0
  | [] => 0
  end.

(** [s.replace(/P{least,}/g, rep)] with [P] a character class and
    [least >= 1]: scanning from the left, a maximal run of at least
    [least] characters of the class is replaced by [rep] and the scan
    resumes after the run; [skip] counts the characters of the current
    match still to be consumed. *)
Fixpoint replace_runs (p : ascii -> bool) (least : nat) (rep : jsstr)
         (skip : nat) (s : jsstr) : jsstr :=
  match s with
  | [] => []
  | c :: r =>
    match skip with
    | S k => replace_runs p least rep k r
    | 0 =>
      let n := run_length p s in
      if (1 <=? n) && (least <=? n)
      then rep ++ replace_runs p least rep (n - 1) r
      else c :: replace_runs p least rep 0 r
    end
  end.

(** [s.split('\n')]. *)
Fixpoint split_lf_aux (cur : jsstr) (s : jsstr) : list jsstr :=
  match s with
  | [] => [rev cur]
  | c :: r => if is_lf c then rev cur :: split_lf_aux [] r
              else split_lf_aux (c :: cur) r
  end.

Definition split_lf (s : jsstr) : list jsstr := split_lf_aux [] s.

(** [s.split('/')], as the list of segments. *)
Fixpoint split_on_aux (sep : ascii) (cur : jsstr) (s : jsstr) : list jsstr :=
  match s with
  | [] => [rev cur]
  | c :: r => if Ascii.eqb c sep then rev cur :: split_on_aux sep [] r
              else split_on_aux sep (c :: cur) r
  end.

Definition split_on (sep : ascii) (s : jsstr) : list jsstr := split_on_aux sep [] s.

(** [lines.join('\n')]. *)
Fixpoint join_lf (l : list jsstr) : jsstr :=
  match l with
  | [] => []
  | [x] => x
  | x :: r => x ++ lf :: join_lf r
  end.

Fixpoint trim_start (s : jsstr) : jsstr :=
  match s with
  | c :: r => if is_space c then trim_start r else s
  | [] => []
  end.

(** [s.trim()]. *)
Definition trim (s : jsstr) : jsstr := rev (trim_start (rev (trim_start s))).

(** [u.repeat(n)]. *)
Fixpoint repeat_str (u : jsstr) (n : nat) : jsstr :=
  match n with
  | 0 => []
  | S k => u ++ repeat_str u k
  end.

(** [s.substring(0, n)]. *)
Definition substring0 (n : nat) (s : jsstr) : jsstr := firstn n s.

(** The decimal numeral of a non-negative integer, as a template literal
    prints it. *)
Definition of_nat (n : nat) : jsstr :=
  list_ascii_of_string (NilZero.string_of_uint (Nat.to_uint n)).

(** A value used as a condition: [undefined], [null] and the empty
    string are falsy. *)
Definition truthy (v : option jsstr) : bool :=
  match v with
  | Some (_ :: _) => true
  | _ => false
  end.

End JsString.

Import JsString.

(** ** The asset descriptor shared by the scanner and the download manager *)

Record Asset := {
  asset_content : option jsstr;   (* [content], absent on assets known by URL *)
  asset_url : option jsstr;       (* [url] *)
  asset_filename : jsstr;         (* [filename] *)
  asset_type : jsstr              (* [type]: html, external-js, inline-js, iframe-html *)
}.

Definition type_html : jsstr := js"html".
Definition type_external_js : jsstr := js"external-js".
Definition type_inline_js : jsstr := js"inline-js".
Definition type_iframe_html : jsstr := js"iframe-html".

(** ** The scanner ([content.js]) *)

Module Scanner.

(** What [new URL(url)] exposes of a parsed URL. *)
Record URL := {
  pathname : jsstr;
  hostname : jsstr
}.

(** The elements of the page the selectors look at, with the properties
    the scanner reads. *)
Record ScriptElement := {
  script_has_src : bool;          (* the element has a [src] attribute *)
  script_src : jsstr;             (* [script.src] *)
  script_textContent : jsstr      (* [script.textContent] *)
}.

Record IframeElement := {
  iframe_has_src : bool;          (* the element has a [src] attribute *)
  iframe_src : jsstr              (* [iframe.src] *)
}.

Inductive Element :=
| Script (s : ScriptElement)
| Iframe (f : IframeElement)
| OtherElement.

(** The page as the scanner sees it: [window.location.href], the
    serialised document and the elements in document order. *)
Record Page := {
  location_href : jsstr;
  outerHTML : jsstr;
  elements : list Element
}.

Record ScanOptions := {
  includeInline : bool
}.

(** [document.querySelectorAll('script[src]')]. *)
Definition select_script_src (page : Page) : list ScriptElement :=
  flat_map (fun e => match e with
                     | Script s => if script_has_src s then [s] else []
                     | _ => []
                     end) (elements page).

(** [document.querySelectorAll('script:not([src])')]. *)
Definition select_script_not_src (page : Page) : list ScriptElement :=
  flat_map (fun e => match e with
                     | Script s => if script_has_src s then [] else [s]
                     | _ => []
                     end) (elements page).

(** [document.querySelectorAll('iframe[src]')]. *)
Definition select_iframe_src (page : Page) : list IframeElement :=
  flat_map (fun e => match e with
                     | Iframe f => if iframe_has_src f then [f] else []
                     | _ => []
                     end) (elements page).

(** [nodes.forEach((node, index) => { if (...) out.push(...) })]: the
    callback either pushes one descriptor or nothing. *)
Fixpoint forEach_push (A B : Type) (f : A -> nat -> option B)
         (index : nat) (nodes : list A) (out : list B) : list B :=
  match nodes with
  | [] => out
  | node :: rest =>
    forEach_push f (S index) rest
                 (match f node index with
                  | Some b => out ++ [b]
                  | None => out
                  end)
  end.

(** [utils.sanitizeFilename]. *)
Definition sanitizeFilename (filename : jsstr) : jsstr :=
  substring0 200
    (replace_runs (fun c => Ascii.eqb c "_"%char) 1 (js"_") 0
      (replace_runs is_space 1 (js"_") 0
        (replace_class
           (fun c => negb (is_word c || is_space c
                           || Ascii.eqb c "."%char || Ascii.eqb c "-"%char))
           (js"_") filename))).

Section WithURL.

(** The host's [URL] constructor; [None] when it throws. *)
Variable parseURL : jsstr -> option URL.

(** [utils.getFilenameFromUrl]. *)
Definition getFilenameFromUrl (url : jsstr) : jsstr :=
  match parseURL url with
  | Some urlObj =>
    let filename := last (split_on "/"%char (pathname urlObj)) [] in
    match filename with
    | [] => hostname urlObj ++ js"_index"
    | _ => filename
    end
  | None => js"unknown_file"
  end.

Definition is_http_or_relative (src : jsstr) : bool :=
  match src with
  | [] => false
  | _ => startsWith (js"http") src || startsWith (js"//") src
  end.

(** [scanner.getExternalScripts]. *)
Definition getExternalScripts (page : Page) : list Asset :=
  forEach_push
    (fun script (_ : nat) =>
       let src := script_src script in
       if is_http_or_relative src then
         let filename := getFilenameFromUrl src in
         Some {| asset_content := None;
                 asset_url := Some src;
                 asset_filename :=
                   if endsWith (js".js") filename then filename
                   else filename ++ js".js";
                 asset_type := type_external_js |}
       else None)
    0 (select_script_src page) [].

(** [scanner.getInlineScripts]. *)
Definition getInlineScripts (page : Page) : list Asset :=
  forEach_push
    (fun script index =>
       match script_textContent script, trim (script_textContent script) with
       | _ :: _, _ :: _ =>
         Some {| asset_content := Some (script_textContent script);
                 asset_url := None;
                 asset_filename :=
                   js"inline_script_" ++ of_nat (index + 1) ++ js".js";
                 asset_type := type_inline_js |}
       | _, _ => None
       end)
    0 (select_script_not_src page) [].

(** [scanner.getCurrentPageHtml]. *)
Definition getCurrentPageHtml (page : Page) : Asset :=
  let url := location_href page in
  let filename := getFilenameFromUrl url ++ js".html" in
  {| asset_content := Some (outerHTML page);
     asset_url := Some url;
     asset_filename := sanitizeFilename filename;
     asset_type := type_html |}.

(** [scanner.getIframeHtml]. *)
Definition getIframeHtml (page : Page) : list Asset :=
  forEach_push
    (fun iframe (_ : nat) =>
       let src := iframe_src iframe in
       if is_http_or_relative src then
         let filename := getFilenameFromUrl src in
         Some {| asset_content := None;
                 asset_url := Some src;
                 asset_filename :=
                   if endsWith (js".html") filename then filename
                   else filename ++ js".html";
                 asset_type := type_iframe_html |}
       else None)
    0 (select_iframe_src page) [].

(** [scanner.scanAllAssets]: the array the returned promise resolves
    to. *)
Definition scanAllAssets (page : Page) (options : ScanOptions) : list Asset :=
  let assets := [] in
  let assets := assets ++ [getCurrentPageHtml page] in
  let externalScripts := getExternalScripts page in
  let assets := assets ++ externalScripts in
  let assets :=
      if includeInline options
      then assets ++ getInlineScripts page
      else assets in
  let iframes := getIframeHtml page in
  let assets := assets ++ iframes in
  assets.

End WithURL.

(** The file name the descriptor model asks for: [^[\w.-]{1,200}$]. *)
Definition safe_name (name : jsstr) : bool :=
  (1 <=? length name) && (length name <=? 200)
  && forallb (fun c => is_word c || Ascii.eqb c "."%char || Ascii.eqb c "-"%char) name.

(** A parser for plain absolute URLs [scheme://host/path?query#fragment]
    (no user info, port, escapes or dot segments), on which it agrees
    with the host's [URL]; it stands for the host in the examples. *)
Fixpoint after_scheme (s : jsstr) : option jsstr :=
  match s with
  | ":"%char :: "/"%char :: "/"%char :: r => Some r
  | _ :: r => after_scheme r
  | [] => None
  end.

Fixpoint take_until (stop : ascii -> bool) (s : jsstr) : jsstr :=
  match s with
  | c :: r => if stop c then [] else c :: take_until stop r
  | [] => []
  end.

Definition plainURL (url : jsstr) : option URL :=
  match after_scheme url with
  | Some r =>
    let host := take_until (fun c => Ascii.eqb c "/"%char || Ascii.eqb c "?"%char
                                     || Ascii.eqb c "#"%char) r in
    let path := take_until (fun c => Ascii.eqb c "?"%char || Ascii.eqb c "#"%char)
                           (skipn (length host) r) in
    Some {| pathname := match path with [] => js"/" | _ => path end;
            hostname := host |}
  | None => None
  end.

End Scanner.

(** ** The background worker ([background.js]) *)

Module Background.

(** *** Exceptions, host events and the host *)

(** An [Error] object; only its [message] is ever read. *)
Inductive JsError := Error (message : jsstr).

Definition message (e : JsError) : jsstr := let 'Error m := e in m.

(** How an evaluation ends: with a value, or with a thrown exception (a
    rejected promise, for an awaited call). *)
Inductive Completion (A : Type) :=
| Normal (a : A)
| Throw (e : JsError).

Arguments Throw {A} e.

(** The argument of [chrome.downloads.download]. *)
Record DownloadRequest := {
  req_url : jsstr;
  req_filename : jsstr;
  req_saveAs : bool;
  req_conflictAction : jsstr
}.

(** The callbacks handed to [setTimeout]. *)
Inductive TimerCallback :=
| RevokeObjectURL (url : jsstr)           (* [URL.revokeObjectURL(url)] *)
| CheckDownloadPath (downloadId : nat)    (* [chrome.downloads.search({id})] *)
| ResolveDelay.                           (* the pause between two downloads *)

(** What [await fetch(url)] gives: a rejection, or a response with its
    [ok], [status], [statusText] and the outcome of [response.text()]. *)
Inductive FetchOutcome :=
| FetchRejected (e : JsError)
| FetchResponse (ok : bool) (status : nat) (statusText : jsstr)
                (text : Completion jsstr).

(** The calls made to the host, in the order they are made. *)
Inductive Event :=
| Fetched (url : jsstr)
| ObjectURLCreated (content mimeType url : jsstr)
| DownloadCalled (request : DownloadRequest)
| TimeoutSet (callback : TimerCallback) (delay : nat).

Definition World := list Event.

(** The host: each facility answers from its arguments and the calls
    made so far.  [js_beautify] is the global the library defines, once
    it is loaded, applied to the fixed formatting options;
    [jsBeautifyLoaded] is the flag the start-up code sets;
    [runtime_fault] is a failure of the runtime while the heuristic
    formatter works on an input (such as [RangeError: Invalid string
    length]). *)
Record Host := {
  js_beautify : World -> option (jsstr -> Completion jsstr);
  jsBeautifyLoaded : World -> bool;
  runtime_fault : jsstr -> option JsError;
  createObjectURL : World -> jsstr -> jsstr -> Completion jsstr;
  base64_utf8 : jsstr -> Completion jsstr;
  fetch : World -> jsstr -> FetchOutcome;
  downloads_download : World -> DownloadRequest -> Completion nat
}.

(** Computations of the worker: they may call the host and may throw. *)
Definition M (A : Type) : Type := World -> Completion A * World.

Definition ret (A : Type) (a : A) : M A := fun w => (Normal a, w).

Definition throw (A : Type) (e : JsError) : M A := fun w => (Throw e, w).

Arguments throw {A} e.

Definition bind (A B : Type) (m : M A) (k : A -> M B) : M B :=
  fun w => match m w with
           | (Normal a, w') => k a w'
           | (Throw e, w') => (Throw e, w')
           end.

(** [try { body } catch (error) { handler }]. *)
Definition try_catch (A : Type) (body : M A) (handler : JsError -> M A) : M A :=
  fun w => match body w with
           | (Normal a, w') => (Normal a, w')
           | (Throw e, w') => handler e w'
           end.

(** One call to the host, recorded. *)
Definition emit (ev : Event) : M unit := fun w => (Normal tt, w ++ [ev]).

Notation "x <- m ;; k" := (bind m (fun x => k))
  (at level 61, m at next level, right associativity).

(** *** The formatter ([jsBeautify]) *)

(** Whether the text starts with white space followed by [[a-zA-Z_$]]:
    what the group of [/,(\s*[a-zA-Z_$])/] matches. *)
Fixpoint starts_ws_ident (s : jsstr) : bool :=
  match s with
  | [] => false
  | c :: r => if is_ident_start c then true
              else if is_space c then starts_ws_ident r else false
  end.

(** [s.replace(/,(\s*[a-zA-Z_$])/g, ',\n$1')]: a line feed goes after
    every comma that the group follows; the group holds no comma, so the
    text it matched is copied as it is. *)
Fixpoint break_after_commas (s : jsstr) : jsstr :=
  match s with
  | [] => []
  | c :: r => if Ascii.eqb c ","%char && starts_ws_ident r
              then c :: lf :: break_after_commas r
              else c :: break_after_commas r
  end.

(** The length of the longest prefix of [s] that [\s*\n] matches. *)
Fixpoint match_ws_lf (s : jsstr) : option nat :=
  match s with
  | [] => None
  | c :: r => if is_space c then
                match match_ws_lf r with
                | Some k => Some (S k)
                | None => if is_lf c then Some 1 else None
                end
              else None
  end.

(** [s.replace(/\n\s*\n/g, '\n')]; [skip] counts the characters of the
    current match still to be consumed. *)
Fixpoint collapse_blank (skip : nat) (s : jsstr) : jsstr :=
  match s with
  | [] => []
  | c :: r =>
    match skip with
    | S k => collapse_blank k r
    | 0 => if is_lf c then
             match match_ws_lf r with
             | Some k => lf :: collapse_blank k r
             | None => c :: collapse_blank 0 r
             end
           else c :: collapse_blank 0 r
    end
  end.

(** The callback of [lines.map], with the [indentLevel] it updates. *)
Fixpoint indent_lines (indentLevel : nat) (lines : list jsstr) : list jsstr :=
  match lines with
  | [] => []
  | line :: rest =>
    let trimmed := trim line in
    match trimmed with
    | [] => [] :: indent_lines indentLevel rest
    | _ =>
      let level1 := if includes (js"}") trimmed
                    then Nat.max 0 (indentLevel - 1) else indentLevel in
      let indentedLine := repeat_str (js"  ") level1 ++ trimmed in
      let level2 := if includes (js"{") trimmed then S level1 else level1 in
      indentedLine :: indent_lines level2 rest
    end
  end.

(** The chain of replacements that builds [formatted]. *)
Definition formatted (code : jsstr) : jsstr :=
  replace_runs is_lf 3 [lf; lf] 0
    (collapse_blank 0
      (break_after_commas
        (replace_char "}"%char [lf; "}"%char; lf]
          (replace_char "{"%char ["{"%char; lf]
            (replace_char ";"%char [";"%char; lf] code))))).

(** The body of the [try] block of [basicBeautify] when the runtime
    does not fail. *)
Definition basicFormat (code : jsstr) : jsstr :=
  join_lf (indent_lines 0 (split_lf (formatted code))).

Section WithHost.

Variable H : Host.

(** The [try] block of [basicBeautify]: the runtime fails on the way,
    or the formatted text is built. *)
Definition basicBeautify_try (code : jsstr) : Completion jsstr :=
  match runtime_fault H code with
  | Some e => Throw e
  | None => Normal (basicFormat code)
  end.

(** [jsBeautify.basicBeautify]. *)
Definition basicBeautify (code : jsstr) : jsstr :=
  match basicBeautify_try code with
  | Normal out => out
  | Throw _ => code
  end.

(** [jsBeautify.isAvailable]. *)
Definition isAvailable (w : World) : bool :=
  match js_beautify H w with
  | Some _ => jsBeautifyLoaded H w
  | None => false
  end.

(** [jsBeautify.beautify]. *)
Definition beautify (code : jsstr) : M jsstr :=
  try_catch
    (fun w =>
       if isAvailable w then
         match js_beautify H w with
         | Some engine => (engine code, w)
         | None => (Throw (Error (js"js_beautify is not defined")), w)
         end
       else (Normal (basicBeautify code), w))
    (fun _ => ret code).

(** *** The download manager ([downloadManager]) *)

Record DownloadOptions := {
  prettifyJs : bool
}.

(** The object [downloadFile] returns. *)
Record DownloadResult := {
  success : bool;
  downloadId : option nat;
  error : option jsstr;
  filename : jsstr
}.

(** [downloadManager.getMimeType]. *)
Definition getMimeType (type : jsstr) : jsstr :=
  if str_eqb type (js"html") || str_eqb type (js"iframe-html")
  then js"text/html"
  else if str_eqb type (js"external-js") || str_eqb type (js"inline-js")
  then js"application/javascript"
  else js"text/plain".

(** [downloadManager.createDownloadUrl]. *)
Definition createDownloadUrl (content mimeType : jsstr) : M jsstr :=
  try_catch
    (fun w => match createObjectURL H w content mimeType with
              | Normal u => (Normal u, w ++ [ObjectURLCreated content mimeType u])
              | Throw e => (Throw e, w)
              end)
    (fun _ => fun w => match base64_utf8 H content with
                       | Normal base64 =>
                         (Normal (js"data:" ++ mimeType ++ js";base64," ++ base64), w)
                       | Throw e => (Throw e, w)
                       end).

(** [downloadManager.fetchExternalContent]; [None] is [null]. *)
Definition fetchExternalContent (url : jsstr) : M (option jsstr) :=
  try_catch
    (fun w => let w' := w ++ [Fetched url] in
              match fetch H w url with
              | FetchRejected e => (Throw e, w')
              | FetchResponse ok status statusText text =>
                if negb ok
                then (Throw (Error (js"HTTP " ++ of_nat status ++ js": " ++ statusText)), w')
                else match text with
                     | Normal body => (Normal (Some body), w')
                     | Throw e => (Throw e, w')
                     end
              end)
    (fun _ => ret None).

(** [await chrome.downloads.download(downloadOptions)]. *)
Definition download (request : DownloadRequest) : M nat :=
  fun w => (downloads_download H w request, w ++ [DownloadCalled request]).

(** [setTimeout(callback, delay)]. *)
Definition setTimeout (callback : TimerCallback) (delay : nat) : M unit :=
  emit (TimeoutSet callback delay).

(** The first part of the [try] block of [downloadFile]: the URL handed
    to the download. *)
Definition resolve_url (asset : Asset) (options : DownloadOptions) : M jsstr :=
  match asset_content asset with
  | Some ((_ :: _) as content) =>
    content <- (if prettifyJs options && includes (js"js") (asset_type asset)
                then beautify content else ret content) ;;
    createDownloadUrl content (getMimeType (asset_type asset))
  | _ =>
    match asset_url asset with
    | Some ((_ :: _) as url) =>
      if prettifyJs options && includes (js"js") (asset_type asset) then
        content <- fetchExternalContent url ;;
        match content with
        | Some ((_ :: _) as content) =>
          content <- beautify content ;;
          createDownloadUrl content (getMimeType (asset_type asset))
        | _ => ret url
        end
      else ret url
    | _ => throw (Error (js"Asset has no content or URL"))
    end
  end.

(** The [try] block of [downloadFile]. *)
Definition try_download (asset : Asset) (options : DownloadOptions)
  : M DownloadResult :=
  url <- resolve_url asset options ;;
  let filename := js"evil-downloads/" ++ asset_filename asset in
  let downloadOptions :=
      {| req_url := url;
         req_filename := filename;
         req_saveAs := false;
         req_conflictAction := js"uniquify" |} in
  downloadId <- download downloadOptions ;;
  _ <- (if startsWith (js"blob:") url
        then setTimeout (RevokeObjectURL url) 5000
        else ret tt) ;;
  _ <- setTimeout (CheckDownloadPath downloadId) 1000 ;;
  ret {| success := true;
         downloadId := Some downloadId;
         error := None;
         filename := asset_filename asset |}.

(** The object the [catch] block of [downloadFile] returns. *)
Definition failure (error : JsError) (asset : Asset) : DownloadResult :=
  {| success := false;
     downloadId := None;
     error := Some (message error);
     filename := asset_filename asset |}.

(** [downloadManager.downloadFile]. *)
Definition downloadFile (asset : Asset) (options : DownloadOptions)
  : M DownloadResult :=
  try_catch (try_download asset options)
            (fun error => ret (failure error asset)).

(** The [for ... of] loop of [downloadFiles], with the [results] array
    it pushes to. *)
Fixpoint downloadFiles_loop (assets : list Asset) (options : DownloadOptions)
         (results : list DownloadResult) : M (list DownloadResult) :=
  match assets with
  | [] => ret results
  | asset :: rest =>
    result <- downloadFile asset options ;;
    _ <- setTimeout ResolveDelay 200 ;;
    downloadFiles_loop rest options (results ++ [result])
  end.

(** [downloadManager.downloadFiles]. *)
Definition downloadFiles (assets : list Asset) (options : DownloadOptions)
  : M (list DownloadResult) :=
  match assets with
  | [] => ret []
  | _ => downloadFiles_loop assets options []
  end.

(** *** The message listener *)

Record Summary := {
  total : nat;
  successful : nat;
  failed : nat
}.

(** The argument of [sendResponse]. *)
Inductive Response :=
| DownloadResponse (results : list DownloadResult) (summary : Summary)
| BeautifyResponse (code : jsstr)
| ErrorResponse (error : jsstr).

(** The [downloadAssets] action. *)
Definition onDownloadAssets (assets : list Asset) (options : DownloadOptions)
  : World -> Response * World :=
  fun w =>
    match downloadFiles assets options w with
    | (Normal results, w') =>
      let successCount := length (filter (fun r => success r) results) in
      let failureCount := length (filter (fun r => negb (success r)) results) in
      (DownloadResponse results
                        {| total := length results;
                           successful := successCount;
                           failed := failureCount |}, w')
    | (Throw error, w') => (ErrorResponse (message error), w')
    end.

(** The [beautifyJs] action. *)
Definition onBeautifyJs (code : jsstr) : World -> Response * World :=
  fun w =>
    match beautify code w with
    | (Normal beautified, w') => (BeautifyResponse beautified, w')
    | (Throw error, w') => (ErrorResponse (message error), w')
    end.

End WithHost.

End Background.

(** * Notions used in the statements *)

Module Spec.

Import Scanner Background.

(** What [forEach_push] adds to the array: the descriptors of the nodes
    that pass, each with the index of its node. *)
Fixpoint collect (A B : Type) (f : A -> nat -> option B)
         (index : nat) (nodes : list A) : list B :=
  match nodes with
  | [] => []
  | node :: rest =>
    match f node index with
    | Some b => b :: collect f (S index) rest
    | None => collect f (S index) rest
    end
  end.

(** A script body that is not blank. *)
Definition nonblank (text : jsstr) : bool :=
  match trim text with
  | [] => false
  | _ :: _ => true
  end.

(** The descriptor of the inline script found at (0-based) position
    [index] among the script elements without a [src] attribute. *)
Definition inline_descriptor (index : nat) (script : ScriptElement) : Asset :=
  {| asset_content := Some (script_textContent script);
     asset_url := None;
     asset_filename := js"inline_script_" ++ of_nat (index + 1) ++ js".js";
     asset_type := type_inline_js |}.

(** The pause between two downloads. *)
Definition pause : Event := TimeoutSet ResolveDelay 200.


(** The result of one descriptor and the calls made for it. *)
Definition outcome (H : Host) (asset : Asset) (options : DownloadOptions)
           (w : World) : DownloadResult * World :=
  match try_download H asset options w with
  | (Normal result, w1) => (result, w1)
  | (Throw e, w1) => (failure e asset, w1)
  end.

(** The results of a batch and the calls made for it. *)
Fixpoint batch (H : Host) (options : DownloadOptions) (assets : list Asset)
         (w : World) : list DownloadResult * World :=
  match assets with
  | [] => ([], w)
  | asset :: rest =>
    let (result, w1) := outcome H asset options w in
    let (results, w2) := batch H options rest (w1 ++ [pause]) in
    (result :: results, w2)
  end.


(** A script descriptor known by its URL only. *)
Definition reference_script (asset : Asset) (url : jsstr) : Prop :=
  truthy (asset_content asset) = false
  /\ asset_url asset = Some url
  /\ truthy (Some url) = true
  /\ includes (js"js") (asset_type asset) = true.

(** The request [downloadFile] makes for an asset resolved to [url]. *)
Definition request_for (asset : Asset) (url : jsstr) : DownloadRequest :=
  {| req_url := url;
     req_filename := js"evil-downloads/" ++ asset_filename asset;
     req_saveAs := false;
     req_conflictAction := js"uniquify" |}.

(** The result of a download the host accepted. *)
Definition succeeded (id : nat) (asset : Asset) : DownloadResult :=
  {| success := true;
     downloadId := Some id;
     error := None;
     filename := asset_filename asset |}.

(** A release of the content handle [url] is scheduled in [w]. *)
Definition release_scheduled (url : jsstr) (w : World) : bool :=
  existsb (fun ev => match ev with
                     | TimeoutSet (RevokeObjectURL u) _ => str_eqb u url
                     | _ => false
                     end) w.

End Spec.

(** * Notions used in the proof that the heuristic formatter is idempotent *)

Module FormatSpec.

Import Background.

Definition semicolon : ascii := ";"%char.
Definition lbrace : ascii := "{"%char.
Definition rbrace : ascii := "}"%char.
Definition comma : ascii := ","%char.

(** What the three replacements of [;], [{] and [}] put in place of one
    character. *)
Definition brk3 (c : ascii) : jsstr :=
  if Ascii.eqb c semicolon then [semicolon; lf]
  else if Ascii.eqb c lbrace then [lbrace; lf]
  else if Ascii.eqb c rbrace then [lf; rbrace; lf]
  else [c].

(** What the four replacements put in place of one character, [ahead]
    telling whether white space and an identifier start follow it. *)
Definition out (c : ascii) (ahead : bool) : jsstr :=
  if Ascii.eqb c comma && ahead then [comma; lf] else brk3 c.

(** The four replacements as one scan of the text, [ctx] being what
    follows the text. *)
Fixpoint breaks (ctx : jsstr) (s : jsstr) : jsstr :=
  match s with
  | [] => []
  | c :: r => out c (starts_ws_ident (r ++ ctx)) ++ breaks ctx r
  end.

(** The lines of [breaks ctx s], [cur] holding the current line
    backwards. *)
Fixpoint pieces (ctx : jsstr) (cur : jsstr) (s : jsstr) : list jsstr :=
  match s with
  | [] => [rev cur]
  | c :: r =>
    if Ascii.eqb c rbrace then rev cur :: [rbrace] :: pieces ctx [] r
    else if is_lf c then rev cur :: pieces ctx [] r
    else if Ascii.eqb c semicolon || Ascii.eqb c lbrace
            || (Ascii.eqb c comma && starts_ws_ident (r ++ ctx))
    then rev (c :: cur) :: pieces ctx [] r
    else pieces ctx (c :: cur) r
  end.

(** A text in which the scan breaks no line, [ctx] being what follows. *)
Fixpoint plain (ctx : jsstr) (s : jsstr) : bool :=
  match s with
  | [] => true
  | c :: r =>
    negb (Ascii.eqb c rbrace || is_lf c || Ascii.eqb c semicolon || Ascii.eqb c lbrace
          || (Ascii.eqb c comma && starts_ws_ident (r ++ ctx)))
    && plain ctx r
  end.

(** A line made of white space only. *)
Definition blank (line : jsstr) : bool := forallb is_space line.

(** The lines that survive [/\n\s*\n/g]: the blank lines other than the
    first and the last go. *)
Fixpoint squeeze_tail (lines : list jsstr) : list jsstr :=
  match lines with
  | [] => []
  | [l] => [l]
  | l :: rest => if blank l then squeeze_tail rest else l :: squeeze_tail rest
  end.

Definition squeeze (lines : list jsstr) : list jsstr :=
  match lines with
  | [] => []
  | l :: rest => l :: squeeze_tail rest
  end.

(** No two line feeds in a row. *)
Fixpoint no_lf_pair (s : jsstr) : bool :=
  match s with
  | a :: r => negb (is_lf a && match r with b :: _ => is_lf b | [] => false end)
              && no_lf_pair r
  | [] => true
  end.

(** A trimmed line that the scan leaves in one piece: a closing brace
    alone, or a text that breaks nowhere before its last character. *)
Definition stable (q : jsstr) : Prop :=
  q = [rbrace]
  \/ exists t c,
      q = t ++ [c]
      /\ is_space c = false
      /\ Ascii.eqb c rbrace = false
      /\ plain [c] t = true
      /\ trim_start q = q.

(** A trimmed line the scan has produced: empty, or stable. *)
Definition settled (q : jsstr) : Prop := q = [] \/ stable q.

(** A text without [;], [{] and [}]. *)
Definition calm (q : jsstr) : bool :=
  forallb (fun c => negb (Ascii.eqb c semicolon || Ascii.eqb c lbrace
                          || Ascii.eqb c rbrace)) q.

(** Whether the scan breaks the line after [c], [ctx] being what
    follows. *)
Definition closes (c : ascii) (ctx : jsstr) : bool :=
  Ascii.eqb c semicolon || Ascii.eqb c lbrace
  || (Ascii.eqb c comma && starts_ws_ident ctx).

(** Lines of which only the last may be blank. *)
Fixpoint normal_tail (lines : list jsstr) : bool :=
  match lines with
  | [] => true
  | [l] => true
  | l :: rest => negb (blank l) && normal_tail rest
  end.

(** A line that is [q] behind an indentation. *)
Definition indented (q line : jsstr) : Prop :=
  exists ind, line = ind ++ q /\ forallb (fun c => Ascii.eqb c " "%char) ind = true.

End FormatSpec.

(** * Sample pages, descriptors and hosts *)

Module Samples.

Import Scanner Background Spec.

(** Two inline scripts, the first with a blank body. *)
Definition script_blank : ScriptElement :=
  {| script_has_src := false; script_src := []; script_textContent := js"  " |}.

Definition script_body : ScriptElement :=
  {| script_has_src := false; script_src := []; script_textContent := js"x=1;" |}.

Definition page_blank_first : Page :=
  {| location_href := js"https://x.test/app/index";
     outerHTML := js"<html></html>";
     elements := [Script script_blank; Script script_body] |}.

(** A page that loads a script from a CDN that names versions with [@]. *)
Definition page_cdn : Page :=
  {| location_href := js"https://x.test/app/index";
     outerHTML := js"<html></html>";
     elements := [Script {| script_has_src := true;
                            script_src := js"https://unpkg.test/vue@3";
                            script_textContent := [] |}] |}.

(** A page whose URL ends in a segment of 200 characters. *)
Definition page_long_name : Page :=
  {| location_href := js"https://x.test/" ++ repeat "a"%char 200;
     outerHTML := js"<html></html>";
     elements := [] |}.

Definition external_asset : Asset :=
  {| asset_content := None;
     asset_url := Some (js"https://x.test/a.js");
     asset_filename := js"a.js";
     asset_type := type_external_js |}.

Definition inline_asset : Asset :=
  {| asset_content := Some (js"x=1;");
     asset_url := None;
     asset_filename := js"inline_script_1.js";
     asset_type := type_inline_js |}.

Definition empty_asset : Asset :=
  {| asset_content := None;
     asset_url := None;
     asset_filename := js"nothing.js";
     asset_type := type_external_js |}.

(** A host without the formatting library, on which [fetch] answers 500
    and the download of every file is accepted ([accepting_host]) or
    rejected ([rejecting_host]). *)
Definition sample_host (accept : bool) : Host :=
  {| js_beautify := fun _ => None;
     jsBeautifyLoaded := fun _ => false;
     runtime_fault := fun _ => None;
     createObjectURL := fun w _ _ => Normal (js"blob:extension/" ++ of_nat (length w));
     base64_utf8 := fun _ => Throw (Error (js"URI malformed"));
     fetch := fun _ _ => FetchResponse false 500 (js"Internal Server Error")
                                       (Normal []);
     downloads_download :=
       fun w _ => if accept then Normal (length w)
                  else Throw (Error (js"Download canceled by the user")) |}.

Definition accepting_host : Host := sample_host true.
Definition rejecting_host : Host := sample_host false.

(** A host whose formatting library is loaded and throws on every
    input. *)
Definition broken_engine_host : Host :=
  {| js_beautify := fun _ => Some (fun _ => Throw (Error (js"Unexpected token")));
     jsBeautifyLoaded := fun _ => true;
     runtime_fault := fun _ => Some (Error (js"Invalid string length"));
     createObjectURL := fun w _ _ => Normal (js"blob:extension/" ++ of_nat (length w));
     base64_utf8 := fun _ => Throw (Error (js"URI malformed"));
     fetch := fun _ _ => FetchRejected (Error (js"Failed to fetch"));
     downloads_download := fun w _ => Normal (length w) |}.

Definition beautify_on : DownloadOptions := {| prettifyJs := true |}.

End Samples.

(** * The rest of the content script ([content.js]) *)

Module ContentListener.

Import Scanner Background.

(** [utils.fetchFileContent]; [None] is [null]. *)
Definition fetchFileContent (H : Host) (url : jsstr) : M (option jsstr) :=
  try_catch
    (fun w => let w' := w ++ [Fetched url] in
              match fetch H w url with
              | FetchRejected e => (Throw e, w')
              | FetchResponse ok status statusText text =>
                if negb ok
                then (Throw (Error (js"HTTP " ++ of_nat status ++ js": " ++ statusText)), w')
                else match text with
                     | Normal body => (Normal (Some body), w')
                     | Throw e => (Throw e, w')
                     end
              end)
    (fun _ => ret None).

(** The argument of [sendResponse] in the content script. *)
Inductive Reply :=
| AssetsReply (assets : list Asset)          (* [{success: true, assets}] *)
| ContentReply (content : option jsstr)      (* [{success: true, content}] *)
| FailureReply (error : jsstr).              (* [{success: false, error}] *)


(** The [fetchContent] action. *)
Definition onFetchContent (H : Host) (url : jsstr) : World -> Reply * World :=
  fun w =>
    match fetchFileContent H url w with
    | (Normal content, w') => (ContentReply content, w')
    | (Throw error, w') => (FailureReply (message error), w')
    end.

(** The body a fetch delivers, when it delivers one. *)
Definition fetched_body (o : FetchOutcome) : option jsstr :=
  match o with
  | FetchResponse true _ _ (Normal body) => Some body
  | _ => None
  end.

End ContentListener.

(** * The popup ([popup.js]) *)

Module Popup.

Import Scanner Background.

(** The texts of the button; they start with a pictograph. *)
Inductive Label :=
| DownloadAssetsLabel     (* the default text, [Download Assets] *)
| ScanningLabel           (* [Scanning...] *)
| DownloadingLabel.       (* [Downloading...] *)

(** The elements of the popup that the script reads and writes. *)
Record Document := {
  status_textContent : jsstr;
  status_className : jsstr;
  status_display : jsstr;
  fileCount_textContent : jsstr;
  fileCount_display : jsstr;
  downloadBtn_disabled : bool;
  downloadBtn_textContent : Label;
  prettifyJs_checked : bool;
  includeInline_checked : bool
}.

Record Tab := {
  tab_id : nat;
  tab_url : option jsstr
}.

(** The [options] object of the two messages. *)
Record PopupOptions := {
  opt_includeInline : bool;
  opt_prettifyJs : bool
}.

(** The messages the popup sends. *)
Inductive Sent :=
| ScanAssets (tabId : nat) (options : PopupOptions)
| DownloadAssets (assets : list Asset) (options : PopupOptions).

(** What the callback of [sendMessage] finds: [chrome.runtime.lastError]
    with its message, and the response. *)
Record Delivery (A : Type) := {
  lastError : option jsstr;
  response : option A
}.

(** The fields the popup reads of the answer to [scanAssets]. *)
Record ScanAnswer := {
  scan_success : bool;
  scan_assets : option (list Asset);
  scan_error : option jsstr
}.

(** The fields the popup reads of the answer to [downloadAssets]. *)
Record DownloadAnswer := {
  download_success : bool;
  download_summary : option Summary;
  download_error : option jsstr
}.

(** The browser as the popup meets it; [undefined_property] is the
    [TypeError] thrown for reading the named property of [undefined]. *)
Record Browser := {
  tabs_query : Completion (list Tab);
  scan_reply : nat -> PopupOptions -> Delivery ScanAnswer;
  download_reply : list Asset -> PopupOptions -> Delivery DownloadAnswer;
  undefined_property : jsstr -> JsError
}.

(** The popup: its document and the messages it has sent. *)
Record State := {
  document : Document;
  sent : list Sent
}.

(** Computations of the popup. *)
Definition P (A : Type) : Type := State -> Completion A * State.

Definition unit_ {A : Type} (a : A) : P A := fun s => (Normal a, s).

Definition raise {A : Type} (e : JsError) : P A := fun s => (Throw e, s).

Definition and_then {A B : Type} (m : P A) (k : A -> P B) : P B :=
  fun s => match m s with
           | (Normal a, s') => k a s'
           | (Throw e, s') => (Throw e, s')
           end.

(** [try { body } catch (error) { handler }]. *)
Definition catching {A : Type} (body : P A) (handler : JsError -> P A) : P A :=
  fun s => match body s with
           | (Normal a, s') => (Normal a, s')
           | (Throw e, s') => handler e s'
           end.

(** [try { body } finally { finalizer }], for a finalizer that neither
    throws nor returns. *)
Definition finally {A : Type} (body : P A) (finalizer : Document -> Document) : P A :=
  fun s => let (c, s') := body s in
           (c, {| document := finalizer (document s'); sent := sent s' |}).

(** A statement that writes to the document. *)
Definition write (f : Document -> Document) : P unit :=
  fun s => (Normal tt, {| document := f (document s); sent := sent s |}).

Definition send (m : Sent) : P unit :=
  fun s => (Normal tt, {| document := document s; sent := sent s ++ [m] |}).

Notation "x <-- m ;; k" := (and_then m (fun x => k))
  (at level 61, m at next level, right associativity).

(** *** [ui] *)

Definition showStatus (message type : jsstr) (d : Document) : Document :=
  {| status_textContent := message;
     status_className := js"status " ++ type;
     status_display := js"block";
     fileCount_textContent := fileCount_textContent d;
     fileCount_display := fileCount_display d;
     downloadBtn_disabled := downloadBtn_disabled d;
     downloadBtn_textContent := downloadBtn_textContent d;
     prettifyJs_checked := prettifyJs_checked d;
     includeInline_checked := includeInline_checked d |}.

Definition hideStatus (d : Document) : Document :=
  {| status_textContent := status_textContent d;
     status_className := status_className d;
     status_display := js"none";
     fileCount_textContent := fileCount_textContent d;
     fileCount_display := fileCount_display d;
     downloadBtn_disabled := downloadBtn_disabled d;
     downloadBtn_textContent := downloadBtn_textContent d;
     prettifyJs_checked := prettifyJs_checked d;
     includeInline_checked := includeInline_checked d |}.

(** [file] or [files]. *)
Definition plural (count : nat) : jsstr := if count =? 1 then [] else js"s".

Definition showFileCount (count : nat) (d : Document) : Document :=
  {| status_textContent := status_textContent d;
     status_className := status_className d;
     status_display := status_display d;
     fileCount_textContent :=
       if 0 <? count
       then js"Found " ++ of_nat count ++ js" file" ++ plural count ++ js" to download"
       else fileCount_textContent d;
     fileCount_display := if 0 <? count then js"block" else js"none";
     downloadBtn_disabled := downloadBtn_disabled d;
     downloadBtn_textContent := downloadBtn_textContent d;
     prettifyJs_checked := prettifyJs_checked d;
     includeInline_checked := includeInline_checked d |}.

Definition setDownloadButtonState (enabled : bool) (text : Label) (d : Document)
  : Document :=
  {| status_textContent := status_textContent d;
     status_className := status_className d;
     status_display := status_display d;
     fileCount_textContent := fileCount_textContent d;
     fileCount_display := fileCount_display d;
     downloadBtn_disabled := negb enabled;
     downloadBtn_textContent := text;
     prettifyJs_checked := prettifyJs_checked d;
     includeInline_checked := includeInline_checked d |}.

(** *** [downloader] *)

Section WithBrowser.

Variable B : Browser.

(** [downloader.getCurrentTab]; [None] is [undefined]. *)
Definition getCurrentTab : P (option Tab) :=
  fun s => match tabs_query B with
           | Normal tabs => (Normal (hd_error tabs), s)
           | Throw e => (Throw e, s)
           end.

(** The options read from the two check boxes. *)
Definition checked_options (d : Document) : PopupOptions :=
  {| opt_includeInline := includeInline_checked d;
     opt_prettifyJs := prettifyJs_checked d |}.

(** [response?.error || fallback]. *)
Definition error_or (error : option jsstr) (fallback : jsstr) : jsstr :=
  match error with
  | Some ((_ :: _) as e) => e
  | _ => fallback
  end.

(** [downloader.scanPageAssets]; [None] is [undefined]. *)
Definition scanPageAssets : P (option (list Asset)) :=
  tab <-- getCurrentTab ;;
  fun s =>
    let options := checked_options (document s) in
    match tab with
    | None => raise (undefined_property B (js"id")) s
    | Some tab =>
      (_ <-- send (ScanAssets (tab_id tab) options) ;;
       let delivery := scan_reply B (tab_id tab) options in
       match lastError delivery with
       | Some m => raise (Error m)
       | None =>
         match response delivery with
         | Some r =>
           if scan_success r then unit_ (scan_assets r)
           else raise (Error (error_or (scan_error r) (js"Failed to scan assets")))
         | None => raise (Error (js"Failed to scan assets"))
         end
       end) s
    end.

(** [downloader.downloadAssets]. *)
Definition downloadAssets (assets : list Asset) : P DownloadAnswer :=
  fun s =>
    let options := checked_options (document s) in
    (_ <-- send (DownloadAssets assets options) ;;
     let delivery := download_reply B assets options in
     match lastError delivery with
     | Some m => raise (Error m)
     | None =>
       match response delivery with
       | Some r =>
         if download_success r then unit_ r
         else raise (Error (error_or (download_error r) (js"Download failed")))
       | None => raise (Error (js"Download failed"))
       end
     end) s.

(** The two messages that report a summary. *)
Definition report_success (summary : Summary) : jsstr :=
  js"Successfully downloaded " ++ of_nat (successful summary) ++ js" file"
    ++ plural (successful summary) ++ js"!".

Definition report_failures (summary : Summary) : jsstr :=
  js"Downloaded " ++ of_nat (successful summary) ++ js"/" ++ of_nat (total summary)
    ++ js" files (" ++ of_nat (failed summary) ++ js" failed)".

(** [downloader.processDownload]. *)
Definition processDownload : P unit :=
  finally
    (catching
       (_ <-- write (setDownloadButtonState false ScanningLabel) ;;
        _ <-- write hideStatus ;;
        assets <-- scanPageAssets ;;
        match assets with
        | None | Some [] =>
          _ <-- write (showStatus (js"No downloadable assets found on this page")
                                  (js"error")) ;;
          write (setDownloadButtonState true DownloadAssetsLabel)
        | Some assets =>
          _ <-- write (showFileCount (length assets)) ;;
          _ <-- write (setDownloadButtonState false DownloadingLabel) ;;
          result <-- downloadAssets assets ;;
          match download_summary result with
          | None => raise (undefined_property B (js"failed"))
          | Some summary =>
            if failed summary =? 0
            then write (showStatus (report_success summary) (js"success"))
            else write (showStatus (report_failures summary) (js"error"))
          end
        end)
       (fun error => write (showStatus (js"Error: " ++ message error) (js"error"))))
    (setDownloadButtonState true DownloadAssetsLabel).

(** The check of the current tab at start-up. *)
Definition checkCurrentTab : P unit :=
  catching
    (tab <-- getCurrentTab ;;
     match tab with
     | None =>
       _ <-- write (showStatus (js"Extension only works on web pages (http/https)")
                               (js"error")) ;;
       write (setDownloadButtonState false DownloadAssetsLabel)
     | Some tab =>
       match tab_url tab with
       | None => raise (undefined_property B (js"startsWith"))
       | Some url =>
         if negb (startsWith (js"http") url) && negb (startsWith (js"https") url)
         then
           _ <-- write (showStatus (js"Extension only works on web pages (http/https)")
                                   (js"error")) ;;
           write (setDownloadButtonState false DownloadAssetsLabel)
         else unit_ tt
       end
     end)
    (fun _ =>
       _ <-- write (showStatus (js"Unable to access current tab") (js"error")) ;;
       write (setDownloadButtonState false DownloadAssetsLabel)).

(** The [keydown] listener. *)
Definition onKeydown (key : jsstr) : P unit :=
  fun s =>
    if str_eqb key (js"Enter") && negb (downloadBtn_disabled (document s))
    then processDownload s
    else (Normal tt, s).

End WithBrowser.

(** *** The saved options *)

(** The two keys of [chrome.storage.sync] the popup uses; [None] is a
    key that is not stored. *)
Record Storage := {
  stored_prettifyJs : option bool;
  stored_includeInline : option bool
}.

Definition saveOptions (d : Document) (st : Storage) : Storage :=
  {| stored_prettifyJs := Some (prettifyJs_checked d);
     stored_includeInline := Some (includeInline_checked d) |}.

Definition loadOptions (st : Storage) (d : Document) : Document :=
  {| status_textContent := status_textContent d;
     status_className := status_className d;
     status_display := status_display d;
     fileCount_textContent := fileCount_textContent d;
     fileCount_display := fileCount_display d;
     downloadBtn_disabled := downloadBtn_disabled d;
     downloadBtn_textContent := downloadBtn_textContent d;
     prettifyJs_checked :=
       match stored_prettifyJs st with Some b => b | None => true end;
     includeInline_checked :=
       match stored_includeInline st with Some b => b | None => true end |}.

End Popup.

(** * Further notions: names *)

Module NameSpec.

(** What [/P+/g -> rep] does, read as one pass: a character of the class
    is replaced by [rep] when it starts a run and dropped when it
    continues one; [inside] tells whether the previous character was in
    the class. *)
Fixpoint squash (p : ascii -> bool) (rep : jsstr) (inside : bool) (s : jsstr) : jsstr :=
  match s with
  | [] => []
  | c :: r =>
    if p c then (if inside then [] else rep) ++ squash p rep true r
    else c :: squash p rep false r
  end.

(** No two adjacent characters of the class [p]. *)
Fixpoint no_pair (p : ascii -> bool) (s : jsstr) : bool :=
  match s with
  | a :: r => negb (p a && match r with b :: _ => p b | [] => false end)
              && no_pair p r
  | [] => true
  end.

Definition is_underscore (c : ascii) : bool := Ascii.eqb c "_"%char.

Definition is_slash (c : ascii) : bool := Ascii.eqb c "/"%char.

(** The characters a sanitized name is made of: [[\w.-]]. *)
Definition name_char (c : ascii) : bool :=
  is_word c || Ascii.eqb c "."%char || Ascii.eqb c "-"%char.

End NameSpec.

Module ScanSpec.

Import Scanner.

(** A descriptor that [downloadFile] can resolve: it has content or a
    URL. *)
Definition has_origin (a : Asset) : bool :=
  truthy (asset_content a) || truthy (asset_url a).


(** A page with a long path segment of safe characters, within the
    bound. *)
Definition page_plain : Page :=
  {| location_href := js"https://x.test/docs/guide";
     outerHTML := js"<html><body></body></html>";
     elements := [] |}.

End ScanSpec.

(** * Further notions: the calls made to the host *)

Module TraceSpec.

Import Background Spec.

Definition is_fetch (ev : Event) : bool :=
  match ev with Fetched _ => true | _ => false end.

Definition is_download (ev : Event) : bool :=
  match ev with DownloadCalled _ => true | _ => false end.

Definition is_object_url (ev : Event) : bool :=
  match ev with ObjectURLCreated _ _ _ => true | _ => false end.

Definition is_pause (ev : Event) : bool :=
  match ev with TimeoutSet ResolveDelay _ => true | _ => false end.

Definition is_release (ev : Event) : bool :=
  match ev with TimeoutSet (RevokeObjectURL _) _ => true | _ => false end.

(** How many of the calls are of one kind. *)
Definition count (kind : Event -> bool) (evs : list Event) : nat :=
  length (filter kind evs).

(** What [beautify] returns in the world [w]. *)
Definition beautified (H : Host) (code : jsstr) (w : World) : jsstr :=
  match beautify H code w with
  | (Normal out, _) => out
  | (Throw _, _) => code
  end.

(** The text [downloadFile] wraps for an asset with content: formatted
    when formatting is on and the type names a script. *)
Definition prepared (H : Host) (asset : Asset) (options : DownloadOptions)
           (content : jsstr) (w : World) : jsstr :=
  if prettifyJs options && includes (js"js") (asset_type asset)
  then beautified H content w else content.

(** The data URL [createDownloadUrl] falls back to. *)
Definition data_url (mimeType base64 : jsstr) : jsstr :=
  js"data:" ++ mimeType ++ js";base64," ++ base64.

End TraceSpec.

Module TextSpec.

Import Background FormatSpec.

(** The text without its white space. *)
Definition visible (s : jsstr) : jsstr := filter (fun c => negb (is_space c)) s.

(** The characters after which [basicBeautify] breaks the line. *)
Definition breaker (c : ascii) : bool :=
  Ascii.eqb c semicolon || Ascii.eqb c lbrace || Ascii.eqb c rbrace.

(** The last three replacements of [formatted] left out. *)
Definition broken (code : jsstr) : jsstr :=
  collapse_blank 0
    (break_after_commas
      (replace_char "}"%char [lf; "}"%char; lf]
        (replace_char "{"%char ["{"%char; lf]
          (replace_char ";"%char [";"%char; lf] code)))).

(** A line in which a [;], [{] or [}] is the last character, and a [}]
    the only one behind the indentation. *)
Definition broken_line (line : jsstr) : Prop :=
  forall a b c, line = a ++ c :: b -> breaker c = true ->
                b = [] /\ (c = rbrace -> blank a = true).

End TextSpec.

Module CallSpec.

Import Background Spec.

(** A call to the host that [downloadFile] makes for [asset]. *)
Definition event_of (asset : Asset) (ev : Event) : Prop :=
  match ev with
  | Fetched url => asset_url asset = Some url
  | ObjectURLCreated _ mimeType _ => mimeType = getMimeType (asset_type asset)
  | DownloadCalled request => exists url, request = request_for asset url
  | TimeoutSet (RevokeObjectURL url) delay =>
    startsWith (js"blob:") url = true /\ delay = 5000
  | TimeoutSet (CheckDownloadPath _) delay => delay = 1000
  | TimeoutSet ResolveDelay _ => False
  end.

End CallSpec.

Module PopupSpec.

Import Scanner Background ContentListener Popup.




(** The button as [processDownload] leaves it. *)
Definition button_ready (d : Document) : Prop :=
  downloadBtn_disabled d = false /\ downloadBtn_textContent d = DownloadAssetsLabel.

(** The status line shows [message] as of [type]. *)
Definition status_shows (message type : jsstr) (d : Document) : Prop :=
  status_textContent d = message
  /\ status_className d = js"status " ++ type
  /\ status_display d = js"block".

(** The assets a scan delivers to the popup, or the message of the error
    it throws. *)
Definition scan_outcome (B : Browser) (d : Document) : jsstr + option (list Asset) :=
  match tabs_query B with
  | Throw e => inl (message e)
  | Normal [] => inl (message (undefined_property B (js"id")))
  | Normal (tab :: _) =>
    let delivery := scan_reply B (tab_id tab) (checked_options d) in
    match lastError delivery with
    | Some m => inl m
    | None =>
      match response delivery with
      | Some r => if scan_success r then inr (scan_assets r)
                  else inl (error_or (scan_error r) (js"Failed to scan assets"))
      | None => inl (js"Failed to scan assets")
      end
    end
  end.

(** The message a scan sends. *)
Definition scan_sent (B : Browser) (d : Document) : list Sent :=
  match tabs_query B with
  | Normal (tab :: _) => [ScanAssets (tab_id tab) (checked_options d)]
  | _ => []
  end.

(** The answer the popup gets to its download request, or the message of
    the error it throws. *)
Definition download_outcome (B : Browser) (assets : list Asset) (d : Document)
  : jsstr + DownloadAnswer :=
  let delivery := download_reply B assets (checked_options d) in
  match lastError delivery with
  | Some m => inl m
  | None =>
    match response delivery with
    | Some r => if download_success r then inr r
                else inl (error_or (download_error r) (js"Download failed"))
    | None => inl (js"Download failed")
    end
  end.

(** Whether a message asks for a download. *)
Definition is_download_request (m : Sent) : bool :=
  match m with
  | DownloadAssets _ _ => true
  | ScanAssets _ _ => false
  end.


(** The tab the popup was opened on shows a page whose address starts
    with [http]. *)
Definition on_web_page (B : Browser) : bool :=
  match tabs_query B with
  | Normal (tab :: _) =>
    match tab_url tab with
    | Some url => startsWith (js"http") url
    | None => false
    end
  | _ => false
  end.

End PopupSpec.

Module MoreSamples.

Import Background Samples.

(** A host that cannot create Blob URLs. *)
Definition no_blob_host : Host :=
  {| js_beautify := fun _ => None;
     jsBeautifyLoaded := fun _ => false;
     runtime_fault := fun _ => None;
     createObjectURL := fun _ _ _ => Throw (Error (js"Blob is not defined"));
     base64_utf8 := fun _ => Normal (js"eD0xOwo=");
     fetch := fun _ _ => FetchResponse true 200 (js"OK") (Normal []);
     downloads_download := fun w _ => Normal (length w) |}.

Definition beautify_off : DownloadOptions := {| prettifyJs := false |}.

Definition html_asset : Asset :=
  {| asset_content := Some (js"<html></html>");
     asset_url := Some (js"https://x.test/");
     asset_filename := js"x.test_index.html";
     asset_type := type_html |}.

End MoreSamples.

Module PopupSamples.

Import Scanner Background Samples MoreSamples Popup PopupSpec.

Definition fresh_document : Document :=
  {| status_textContent := [];
     status_className := js"status";
     status_display := js"none";
     fileCount_textContent := [];
     fileCount_display := js"none";
     downloadBtn_disabled := false;
     downloadBtn_textContent := DownloadAssetsLabel;
     prettifyJs_checked := true;
     includeInline_checked := true |}.

Definition fresh_popup : State := {| document := fresh_document; sent := [] |}.

Definition web_tab : Tab :=
  {| tab_id := 7; tab_url := Some (js"https://x.test/app/index") |}.

Definition type_error (property : jsstr) : JsError :=
  Error (js"Cannot read properties of undefined (reading '" ++ property ++ js"')").

(** A browser on which the content script is not injected in the tab. *)
Definition deaf_browser : Browser :=
  {| tabs_query := Normal [web_tab];
     scan_reply := fun _ _ =>
       {| lastError := Some (js"Could not establish connection. Receiving end does not exist.");
          response := None |};
     download_reply := fun _ _ => {| lastError := None; response := None |};
     undefined_property := type_error |}.


End PopupSamples.

(** * Properties of the scanner *)

Module ScannerFacts.

Import Scanner Spec Samples.

Lemma forEach_push_collect (A B : Type) (f : A -> nat -> option B) :
  forall nodes index out,
    forEach_push f index nodes out = out ++ collect f index nodes.
Proof.
  induction nodes as [|node rest IH]; intros index out; simpl.
  - now rewrite app_nil_r.
  - rewrite IH. destruct (f node index); [|reflexivity].
    now rewrite <- app_assoc.
Qed.

Lemma collect_ext (A B : Type) (f g : A -> nat -> option B) :
  (forall node index, f node index = g node index) ->
  forall nodes index, collect f index nodes = collect g index nodes.
Proof.
  intros E. induction nodes as [|node rest IH]; intros index; cbn [collect].
  - reflexivity.
  - now rewrite E, IH.
Qed.

Lemma getInlineScripts_collect (page : Page) :
  getInlineScripts page =
  collect (fun script index =>
             if nonblank (script_textContent script)
             then Some (inline_descriptor index script) else None)
          0 (select_script_not_src page).
Proof.
  unfold getInlineScripts. rewrite forEach_push_collect.
  cbn [app]. apply collect_ext. intros s index.
  unfold nonblank, inline_descriptor.
  destruct (script_textContent s) as [|c r]; [reflexivity|].
  now destruct (trim (c :: r)).
Qed.

Lemma collect_inline_nth :
  forall nodes base k a,
    nth_error
      (collect (fun script index =>
                  if nonblank (script_textContent script)
                  then Some (inline_descriptor index script) else None)
               base nodes) k = Some a ->
    exists i script,
      nth_error nodes i = Some script
      /\ nonblank (script_textContent script) = true
      /\ a = inline_descriptor (base + i) script
      /\ k = length (filter (fun s => nonblank (script_textContent s))
                            (firstn i nodes)).
Proof.
  induction nodes as [|s rest IH]; intros base k a; cbn [collect].
  - destruct k; discriminate.
  - destruct (nonblank (script_textContent s)) eqn:NB.
    + destruct k as [|k]; cbn [nth_error].
      * intros E. injection E as <-. exists 0, s.
        rewrite Nat.add_0_r. now repeat split.
      * intros E. destruct (IH _ _ _ E) as (i & s' & Hi & Hnb & Ha & Hk).
        exists (S i), s'. cbn [nth_error firstn filter]. rewrite NB.
        cbn [length]. rewrite Nat.add_succ_r. now repeat split; try f_equal.
    + intros E. destruct (IH _ _ _ E) as (i & s' & Hi & Hnb & Ha & Hk).
      exists (S i), s'. cbn [nth_error firstn filter]. rewrite NB.
      rewrite Nat.add_succ_r. now repeat split.
Qed.

Lemma collect_noindex (A B : Type) (f : A -> option B) :
  forall nodes index,
    collect (fun node (_ : nat) => f node) index nodes =
    flat_map (fun node => match f node with Some b => [b] | None => [] end) nodes.
Proof.
  induction nodes as [|node rest IH]; intros index; cbn [collect flat_map].
  - reflexivity.
  - rewrite IH. now destruct (f node).
Qed.

(** The descriptors of the nodes that pass a test carry the sources of
    these nodes, in the order of the nodes. *)
Lemma flat_map_sources (A : Type) (src : A -> jsstr) (keep : jsstr -> bool)
      (mk : A -> Asset) (ty : jsstr) :
  (forall node, asset_url (mk node) = Some (src node)) ->
  (forall node, asset_type (mk node) = ty) ->
  forall nodes,
    let out := flat_map (fun node => match (if keep (src node)
                                            then Some (mk node) else None) with
                                     | Some b => [b]
                                     | None => []
                                     end) nodes in
    map asset_url out = map Some (filter keep (map src nodes))
    /\ Forall (fun a => asset_type a = ty) out.
Proof.
  intros Hu Ht. induction nodes as [|node rest [IH1 IH2]]; cbn.
  - split; [reflexivity|constructor].
  - destruct (keep (src node)); cbn.
    + rewrite Hu. split; [now f_equal|]. constructor; [apply Ht|assumption].
    + now split.
Qed.

Lemma external_scripts_sources (parseURL : jsstr -> option URL) (page : Page) :
  map asset_url (getExternalScripts parseURL page) =
  map Some (filter is_http_or_relative (map script_src (select_script_src page)))
  /\ Forall (fun a => asset_type a = type_external_js)
            (getExternalScripts parseURL page).
Proof.
  unfold getExternalScripts. rewrite forEach_push_collect. cbn [app].
  rewrite (collect_noindex
             (fun script =>
                if is_http_or_relative (script_src script)
                then Some {| asset_content := None;
                             asset_url := Some (script_src script);
                             asset_filename :=
                               if endsWith (js".js")
                                           (getFilenameFromUrl parseURL (script_src script))
                               then getFilenameFromUrl parseURL (script_src script)
                               else getFilenameFromUrl parseURL (script_src script)
                                    ++ js".js";
                             asset_type := type_external_js |}
                else None)).
  now apply flat_map_sources.
Qed.

Lemma iframe_sources (parseURL : jsstr -> option URL) (page : Page) :
  map asset_url (getIframeHtml parseURL page) =
  map Some (filter is_http_or_relative (map iframe_src (select_iframe_src page)))
  /\ Forall (fun a => asset_type a = type_iframe_html)
            (getIframeHtml parseURL page).
Proof.
  unfold getIframeHtml. rewrite forEach_push_collect. cbn [app].
  rewrite (collect_noindex
             (fun iframe =>
                if is_http_or_relative (iframe_src iframe)
                then Some {| asset_content := None;
                             asset_url := Some (iframe_src iframe);
                             asset_filename :=
                               if endsWith (js".html")
                                           (getFilenameFromUrl parseURL (iframe_src iframe))
                               then getFilenameFromUrl parseURL (iframe_src iframe)
                               else getFilenameFromUrl parseURL (iframe_src iframe)
                                    ++ js".html";
                             asset_type := type_iframe_html |}
                else None)).
  now apply flat_map_sources.
Qed.

Lemma inline_scripts_bodies (page : Page) :
  map asset_content (getInlineScripts page) =
  map Some (filter nonblank (map script_textContent (select_script_not_src page)))
  /\ Forall (fun a => asset_type a = type_inline_js) (getInlineScripts page).
Proof.
  rewrite getInlineScripts_collect. generalize 0.
  induction (select_script_not_src page) as [|s rest IH]; intros index;
    cbn [collect map filter].
  - split; [reflexivity|constructor].
  - destruct (IH (S index)) as [IH1 IH2].
    destruct (nonblank (script_textContent s)); cbn [map].
    + split; [now f_equal|]. now constructor.
    + now split.
Qed.

Lemma count_other_type (ty : jsstr) (l : list Asset) :
  str_eqb ty type_html = false ->
  Forall (fun a => asset_type a = ty) l ->
  filter (fun a => str_eqb (asset_type a) type_html) l = [].
Proof.
  intros Hty. induction 1 as [|a l Ha _ IH]; cbn [filter]; [reflexivity|].
  now rewrite Ha, Hty.
Qed.

(** C6. The array [scanAllAssets] resolves to is the descriptor of the
    page, then those of the external scripts, then (when [includeInline]
    is set, and only then) those of the inline scripts, then those of the
    frames, each group in document order; its first element, and no
    other, has the type of the page document. *)
Theorem scan_order (parseURL : jsstr -> option URL) (page : Page)
        (options : ScanOptions) :
  let assets := scanAllAssets parseURL page options in
  let externals := getExternalScripts parseURL page in
  let inlines := if includeInline options then getInlineScripts page else [] in
  let frames := getIframeHtml parseURL page in
  assets = getCurrentPageHtml parseURL page :: externals ++ inlines ++ frames
  /\ asset_type (getCurrentPageHtml parseURL page) = type_html
  /\ Forall (fun a => asset_type a = type_external_js) externals
  /\ map asset_url externals =
     map Some (filter is_http_or_relative
                      (map script_src (select_script_src page)))
  /\ Forall (fun a => asset_type a = type_inline_js) inlines
  /\ map asset_content inlines =
     (if includeInline options
      then map Some (filter nonblank
                            (map script_textContent (select_script_not_src page)))
      else [])
  /\ Forall (fun a => asset_type a = type_iframe_html) frames
  /\ map asset_url frames =
     map Some (filter is_http_or_relative
                      (map iframe_src (select_iframe_src page)))
  /\ option_map asset_type (hd_error assets) = Some type_html
  /\ length (filter (fun a => str_eqb (asset_type a) type_html) assets) = 1.
Proof.
  intros assets externals inlines frames.
  destruct (external_scripts_sources parseURL page) as [Eu Et].
  destruct (iframe_sources parseURL page) as [Fu Ft].
  destruct (inline_scripts_bodies page) as [Ic It].
  assert (Hassets : assets = getCurrentPageHtml parseURL page
                             :: externals ++ inlines ++ frames).
  { unfold assets, scanAllAssets, inlines, externals, frames.
    destruct (includeInline options); cbn [app];
      now rewrite <- ?app_assoc. }
  assert (Hin : Forall (fun a => asset_type a = type_inline_js) inlines).
  { unfold inlines. destruct (includeInline options); [assumption|constructor]. }
  repeat split; try assumption.
  - unfold inlines. now destruct (includeInline options).
  - now rewrite Hassets.
  - rewrite Hassets. cbn [filter getCurrentPageHtml asset_type].
    replace (str_eqb type_html type_html) with true by reflexivity.
    rewrite !filter_app.
    rewrite (count_other_type (ty := type_external_js)) by (reflexivity || assumption).
    rewrite (count_other_type (ty := type_inline_js)) by (reflexivity || assumption).
    rewrite (count_other_type (ty := type_iframe_html)) by (reflexivity || assumption).
    reflexivity.
Qed.

(** C7, as the code has it.  The [k]-th inline descriptor (counting from
    0) comes from a script element without [src] and with a non-blank
    body; it is named [inline_script_<i+1>.js] where [i] is the position
    (from 0) of that element among ALL script elements without [src],
    blank ones included, and [k] is the number of non-blank ones before
    it. *)
Theorem inline_script_names (page : Page) (k : nat) (a : Asset) :
  nth_error (getInlineScripts page) k = Some a ->
  exists i script,
    nth_error (select_script_not_src page) i = Some script
    /\ nonblank (script_textContent script) = true
    /\ a = inline_descriptor i script
    /\ asset_filename a = js"inline_script_" ++ of_nat (i + 1) ++ js".js"
    /\ k = length (filter (fun s => nonblank (script_textContent s))
                          (firstn i (select_script_not_src page)))
    /\ k <= i.
Proof.
  rewrite getInlineScripts_collect. intros E.
  destruct (collect_inline_nth _ _ _ E) as (i & s & Hi & Hnb & Ha & Hk).
  exists i, s. cbn [Nat.add] in Ha. repeat split; try assumption.
  - now rewrite Ha.
  - rewrite Hk. etransitivity; [apply filter_length_le|].
    rewrite length_firstn. apply Nat.le_min_l.
Qed.

Lemma inline_script_names_witness :
  exists i script,
    nth_error (select_script_not_src page_blank_first) i = Some script
    /\ nonblank (script_textContent script) = true
    /\ inline_descriptor 1 script_body = inline_descriptor i script
    /\ asset_filename (inline_descriptor 1 script_body) =
       js"inline_script_" ++ of_nat (i + 1) ++ js".js"
    /\ 0 = length (filter (fun s => nonblank (script_textContent s))
                          (firstn i (select_script_not_src page_blank_first)))
    /\ 0 <= i.
Proof.
  apply (@inline_script_names page_blank_first 0 (inline_descriptor 1 script_body)).
  reflexivity.
Defined.

(** C7, as stated, fails: on a page whose first script without [src] is
    blank and whose second is not, the first (and only) inline descriptor
    is named [inline_script_2.js]. *)
Lemma inline_names_not_consecutive :
  ~ (forall (page : Page) (k : nat) (a : Asset),
        nth_error (getInlineScripts page) k = Some a ->
        asset_filename a = js"inline_script_" ++ of_nat (k + 1) ++ js".js").
Proof.
  intros Hc.
  specialize (Hc page_blank_first 0 (inline_descriptor 1 script_body) eq_refl).
  discriminate Hc.
Qed.

(** C1 on the failing input: the descriptor of an external script keeps
    the last path segment of its URL as it is, here [vue@3.js], which
    [^[\w.-]{1,200}$] does not match. *)
Theorem external_script_name_unsanitized :
  exists a,
    nth_error (scanAllAssets plainURL page_cdn {| includeInline := true |}) 1 = Some a
    /\ asset_type a = type_external_js
    /\ asset_filename a = js"vue@3.js"
    /\ safe_name (asset_filename a) = false.
Proof.
  eexists. split; [reflexivity|]. now repeat split.
Qed.

(** The name of the page document is cut to 200 characters after the
    extension is added: a long last segment loses [.html]. *)
Lemma page_name_loses_extension :
  let a := getCurrentPageHtml plainURL page_long_name in
  asset_type a = type_html
  /\ asset_filename a = repeat "a"%char 200
  /\ endsWith (js".html") (asset_filename a) = false.
Proof.
  now vm_compute.
Qed.

(** What holds of the names: the name of the page document is sanitized,
    and the names of scripts and frames carry their extension. *)

Lemma replace_class_chars (p Q : ascii -> bool) (rep : jsstr) :
  forallb Q rep = true -> (forall c, p c = false -> Q c = true) ->
  forall s, forallb Q (replace_class p rep s) = true.
Proof.
  intros Hrep Hq. unfold replace_class.
  induction s as [|c r IH]; [reflexivity|].
  cbn [flat_map]. rewrite forallb_app, IH, andb_true_r.
  destruct (p c) eqn:Hp; [assumption|]. cbn. now rewrite (Hq c Hp).
Qed.

Lemma replace_runs_chars (p Q : ascii -> bool) (rep : jsstr) :
  forallb Q rep = true ->
  forall s skip,
    (forall c, In c s -> p c = false -> Q c = true) ->
    forallb Q (replace_runs p 1 rep skip s) = true.
Proof.
  intros Hrep. induction s as [|c r IH]; intros skip Hs; [reflexivity|].
  assert (Hr : forall d, In d r -> p d = false -> Q d = true).
  { intros d Hd. apply Hs. now right. }
  cbn [replace_runs]. destruct skip as [|k]; [|now apply IH].
  cbn [run_length]. destruct (p c) eqn:Hp.
  - cbn [Nat.leb andb]. rewrite forallb_app, Hrep. now apply IH.
  - cbn [Nat.leb andb forallb]. rewrite (Hs c (or_introl eq_refl) Hp).
    now apply IH.
Qed.

Lemma replace_class_nonempty (p : ascii -> bool) (rep s : jsstr) :
  rep <> [] -> s <> [] -> replace_class p rep s <> [].
Proof.
  intros Hrep Hs. destruct s as [|c r]; [contradiction|].
  unfold replace_class. cbn [flat_map].
  destruct (p c); [|discriminate].
  destruct rep; [contradiction|discriminate].
Qed.

Lemma replace_runs_nonempty (p : ascii -> bool) (least : nat) (rep s : jsstr) :
  rep <> [] -> s <> [] -> replace_runs p least rep 0 s <> [].
Proof.
  intros Hrep Hs. destruct s as [|c r]; [contradiction|].
  cbn [replace_runs]. destruct (_ && _); [|discriminate].
  destruct rep; [contradiction|discriminate].
Qed.

Lemma forallb_firstn (Q : ascii -> bool) (n : nat) (s : jsstr) :
  forallb Q s = true -> forallb Q (firstn n s) = true.
Proof.
  revert n. induction s as [|c r IH]; intros [|n]; try reflexivity.
  cbn [forallb firstn]. intros Hs. apply andb_prop in Hs as [-> Hr].
  now apply IH.
Qed.

(** A sanitized name matches [^[\w.-]{1,200}$], whatever the name was,
    provided it was not empty. *)
Lemma sanitizeFilename_safe (filename : jsstr) :
  filename <> [] -> safe_name (sanitizeFilename filename) = true.
Proof.
  intros Hne. unfold sanitizeFilename, substring0.
  set (s1 := replace_class _ _ filename).
  set (s2 := replace_runs is_space 1 _ 0 s1).
  set (s3 := replace_runs _ 1 _ 0 s2).
  set (Q1 := fun c => is_word c || is_space c
                      || Ascii.eqb c "."%char || Ascii.eqb c "-"%char).
  set (Q2 := fun c => is_word c || Ascii.eqb c "."%char || Ascii.eqb c "-"%char).
  assert (H1 : forallb Q1 s1 = true).
  { apply replace_class_chars; [reflexivity|].
    intros c Hc. now apply negb_false_iff in Hc. }
  assert (H2 : forallb Q2 s2 = true).
  { apply replace_runs_chars; [reflexivity|].
    intros c Hc Hs. rewrite forallb_forall in H1. specialize (H1 c Hc).
    unfold Q1 in H1. unfold Q2. rewrite Hs, orb_false_r in H1. exact H1. }
  assert (H3 : forallb Q2 s3 = true).
  { apply replace_runs_chars; [reflexivity|].
    intros c Hc _. rewrite forallb_forall in H2. now apply H2. }
  assert (N3 : s3 <> []).
  { repeat (apply replace_runs_nonempty || apply replace_class_nonempty);
      (discriminate || assumption). }
  unfold safe_name. fold Q2. rewrite (@forallb_firstn Q2 200 s3 H3), andb_true_r.
  rewrite length_firstn. apply andb_true_intro. split; apply Nat.leb_le.
  - destruct s3; [contradiction|]. cbn [length]. lia.
  - apply Nat.le_min_l.
Qed.

Lemma page_name_safe (parseURL : jsstr -> option URL) (page : Page) :
  safe_name (asset_filename (getCurrentPageHtml parseURL page)) = true.
Proof.
  cbn [getCurrentPageHtml asset_filename]. apply sanitizeFilename_safe.
  intros E. apply app_eq_nil in E as [_ E]. discriminate E.
Qed.

Lemma startsWith_app (p s : jsstr) : startsWith p (p ++ s) = true.
Proof.
  induction p as [|c p IH]; [reflexivity|].
  cbn [app startsWith]. now rewrite Ascii.eqb_refl, IH.
Qed.

Lemma endsWith_app (p s : jsstr) : endsWith p (s ++ p) = true.
Proof. unfold endsWith. rewrite rev_app_distr. apply startsWith_app. Qed.

Lemma forced_extension (ext name : jsstr) :
  endsWith ext (if endsWith ext name then name else name ++ ext) = true.
Proof.
  destruct (endsWith ext name) eqn:E; [exact E|apply endsWith_app].
Qed.

Lemma collect_Forall (A : Type) (P : Asset -> Prop) (f : A -> nat -> option Asset) :
  (forall node index a, f node index = Some a -> P a) ->
  forall nodes index, Forall P (collect f index nodes).
Proof.
  intros Hf. induction nodes as [|node rest IH]; intros index; cbn [collect].
  - constructor.
  - destruct (f node index) eqn:E; [constructor; [now apply (Hf node index)|]|];
      apply IH.
Qed.

Lemma script_names_end_js (parseURL : jsstr -> option URL) (page : Page) :
  Forall (fun a => endsWith (js".js") (asset_filename a) = true)
         (getExternalScripts parseURL page ++ getInlineScripts page).
Proof.
  apply Forall_app. split.
  - unfold getExternalScripts. rewrite forEach_push_collect. cbn [app].
    apply collect_Forall. intros script index a.
    destruct (is_http_or_relative (script_src script)); [|discriminate].
    intros E. injection E as <-. apply forced_extension.
  - rewrite getInlineScripts_collect.
    apply collect_Forall. intros script index a.
    destruct (nonblank (script_textContent script)); [|discriminate].
    intros E. injection E as <-. unfold inline_descriptor. cbn [asset_filename].
    rewrite app_assoc. apply endsWith_app.
Qed.

Lemma frame_names_end_html (parseURL : jsstr -> option URL) (page : Page) :
  Forall (fun a => endsWith (js".html") (asset_filename a) = true)
         (getIframeHtml parseURL page).
Proof.
  unfold getIframeHtml. rewrite forEach_push_collect. cbn [app].
  apply collect_Forall. intros iframe index a.
  destruct (is_http_or_relative (iframe_src iframe)); [|discriminate].
  intros E. injection E as <-. apply forced_extension.
Qed.

End ScannerFacts.

(** * Properties of the download manager *)

Module BackgroundFacts.

Import Background Spec Samples.

Ltac unfold_monad :=
  unfold bind, ret, throw, try_catch, setTimeout, emit, download.

Section Batch.

Variable H : Host.
Variable options : DownloadOptions.

Lemma downloadFile_outcome (asset : Asset) (w : World) :
  downloadFile H asset options w =
  (Normal (fst (outcome H asset options w)), snd (outcome H asset options w)).
Proof.
  unfold downloadFile, outcome. unfold_monad.
  now destruct (try_download H asset options w) as [[result|e] w1].
Qed.

Lemma try_download_completed (asset : Asset) (w w1 : World) (result : DownloadResult) :
  try_download H asset options w = (Normal result, w1) ->
  exists id, result = succeeded id asset.
Proof.
  unfold try_download. unfold_monad.
  destruct (resolve_url H asset options w) as [[url|e] w0]; [|discriminate].
  destruct (downloads_download H w0 _) as [id|e]; [|discriminate].
  destruct (startsWith (js"blob:") url); intros E; injection E as <- _;
    now exists id.
Qed.

Lemma outcome_shape (asset : Asset) (w : World) :
  (exists id, fst (outcome H asset options w) = succeeded id asset)
  \/ (exists e, fst (outcome H asset options w) = failure e asset).
Proof.
  unfold outcome.
  destruct (try_download H asset options w) as [[result|e] w1] eqn:E.
  - left. apply try_download_completed in E. exact E.
  - right. now exists e.
Qed.

Lemma loop_batch :
  forall (assets : list Asset) (results : list DownloadResult) (w : World),
    downloadFiles_loop H assets options results w =
    (Normal (results ++ fst (batch H options assets w)),
     snd (batch H options assets w)).
Proof.
  induction assets as [|asset rest IH]; intros results w;
    cbn [downloadFiles_loop batch].
  - unfold ret. cbn [fst snd]. now rewrite app_nil_r.
  - unfold bind at 1. rewrite downloadFile_outcome.
    destruct (outcome H asset options w) as [result w1]. cbn [fst snd].
    unfold bind, setTimeout, emit. rewrite IH. fold pause.
    destruct (batch H options rest (w1 ++ [pause])) as [rs w2]. cbn [fst snd].
    now rewrite <- app_assoc.
Qed.

Lemma downloadFiles_batch (assets : list Asset) (w : World) :
  downloadFiles H assets options w =
  (Normal (fst (batch H options assets w)), snd (batch H options assets w)).
Proof.
  destruct assets as [|asset rest]; [reflexivity|].
  unfold downloadFiles. now rewrite loop_batch.
Qed.


Lemma batch_shape :
  forall (assets : list Asset) (w : World),
    Forall2 (fun asset result =>
               (exists id, result = succeeded id asset)
               \/ (exists e, result = failure e asset))
            assets (fst (batch H options assets w)).
Proof.
  induction assets as [|asset rest IH]; intros w; cbn [batch].
  - constructor.
  - pose proof (outcome_shape asset w) as Hs.
    destruct (outcome H asset options w) as [result w1].
    specialize (IH (w1 ++ [pause])).
    destruct (batch H options rest (w1 ++ [pause])) as [rs w2].
    cbn [fst snd] in *. now constructor.
Qed.

Lemma shape_length (assets : list Asset) (results : list DownloadResult) :
  Forall2 (fun asset result =>
             (exists id, result = succeeded id asset)
             \/ (exists e, result = failure e asset))
          assets results ->
  length results = length assets
  /\ map (@filename) results = map asset_filename assets.
Proof.
  induction 1 as [|asset result assets results Hr _ [IH1 IH2]]; cbn.
  - now split.
  - split; [now f_equal|]. f_equal; [|assumption].
    now destruct Hr as [[id ->]|[e ->]].
Qed.


Lemma count_partition (results : list DownloadResult) :
  length results =
  length (filter (fun r => success r) results)
  + length (filter (fun r => negb (success r)) results).
Proof.
  induction results as [|r rest IH]; cbn [filter length]; [reflexivity|].
  destruct (success r); cbn [negb length]; lia.
Qed.

(** C5. The reply to [downloadAssets] carries the results and a summary
    whose [total] is the number of descriptors, whose [successful] is
    the number of results with [success], and whose [failed] is the
    difference, so that [total = successful + failed]; for the empty
    sequence the results are empty and the summary is 0, 0, 0. *)
Theorem summary_counts (assets : list Asset) (w : World) :
  (exists results summary w',
      onDownloadAssets H assets options w = (DownloadResponse results summary, w')
      /\ length results = length assets
      /\ total summary = length assets
      /\ successful summary = length (filter (fun r => success r) results)
      /\ failed summary = total summary - successful summary
      /\ total summary = successful summary + failed summary)
  /\ onDownloadAssets H [] options w =
     (DownloadResponse [] {| total := 0; successful := 0; failed := 0 |}, w).
Proof.
  split; [|reflexivity].
  destruct (shape_length (batch_shape assets w)) as [Hl _].
  unfold onDownloadAssets. rewrite downloadFiles_batch.
  eexists _, _, _. split; [reflexivity|]. cbn [total successful failed].
  pose proof (count_partition (fst (batch H options assets w))).
  repeat split; lia.
Qed.

Lemma resolve_url_no_origin (asset : Asset) (w : World) :
  truthy (asset_content asset) = false ->
  truthy (asset_url asset) = false ->
  resolve_url H asset options w =
  (Throw (Error (js"Asset has no content or URL")), w).
Proof.
  unfold resolve_url, truthy, throw.
  destruct (asset_content asset) as [[|c content]|];
    destruct (asset_url asset) as [[|d url]|]; intros; try discriminate;
      reflexivity.
Qed.

(** C10. A descriptor with neither content nor URL makes [downloadFile]
    return (not throw) the failure record with the message [Asset has no
    content or URL], without any call to the host; in a batch, the
    descriptors after it are processed as they would be without it. *)
Theorem no_origin_is_a_failed_result (asset : Asset) (w : World) :
  truthy (asset_content asset) = false ->
  truthy (asset_url asset) = false ->
  let result := {| success := false;
                   downloadId := None;
                   error := Some (js"Asset has no content or URL");
                   filename := asset_filename asset |} in
  downloadFile H asset options w = (Normal result, w)
  /\ forall rest : list Asset,
      exists results w',
        downloadFiles H rest options (w ++ [pause]) = (Normal results, w')
        /\ downloadFiles H (asset :: rest) options w =
           (Normal (result :: results), w').
Proof.
  intros Hc Hu result.
  assert (Ho : outcome H asset options w = (result, w)).
  { unfold outcome, try_download. unfold_monad.
    now rewrite resolve_url_no_origin. }
  split.
  - now rewrite downloadFile_outcome, Ho.
  - intros rest. rewrite !downloadFiles_batch. cbn [batch]. rewrite Ho.
    destruct (batch H options rest (w ++ [pause])) as [rs w2].
    now exists rs, w2.
Qed.

End Batch.

Lemma no_origin_is_a_failed_result_witness :
  let result := {| success := false;
                   downloadId := None;
                   error := Some (js"Asset has no content or URL");
                   filename := asset_filename empty_asset |} in
  downloadFile accepting_host empty_asset beautify_on [] = (Normal result, [])
  /\ forall rest : list Asset,
      exists results w',
        downloadFiles accepting_host rest beautify_on ([] ++ [pause])
        = (Normal results, w')
        /\ downloadFiles accepting_host (empty_asset :: rest) beautify_on []
           = (Normal (result :: results), w').
Proof.
  apply (@no_origin_is_a_failed_result accepting_host beautify_on empty_asset []);
    reflexivity.
Defined.

Section Fallback.

Variable H : Host.



Lemma resolve_url_direct (asset : Asset) (url : jsstr) (w : World) :
  reference_script asset url ->
  resolve_url H asset {| prettifyJs := false |} w = (Normal url, w).
Proof.
  intros (Hc & Hu & Ht & Hj). unfold resolve_url.
  destruct url as [|c url]; [discriminate|].
  destruct (asset_content asset) as [[|d content]|]; try discriminate;
    now rewrite Hu.
Qed.


End Fallback.



Section Format.

Variable H : Host.

Lemma basicBeautify_cases (code : jsstr) :
  basicBeautify H code =
  match runtime_fault H code with
  | Some _ => code
  | None => basicFormat code
  end.
Proof.
  unfold basicBeautify, basicBeautify_try. now destruct (runtime_fault H code).
Qed.

(** C3. [beautify] returns a string for every input and never throws,
    with the library loaded or not.  With the library loaded it returns
    what the library returns, and the input itself when the library
    throws; without it, it returns what the heuristic formatter builds,
    and the input itself when that formatter fails. *)
Theorem beautify_total (code : jsstr) (w : World) :
  exists out,
    beautify H code w = (Normal out, w)
    /\ (forall engine,
          isAvailable H w = true -> js_beautify H w = Some engine ->
          (forall e, engine code = Throw e -> out = code)
          /\ (forall s, engine code = Normal s -> out = s))
    /\ (isAvailable H w = false ->
        out = basicBeautify H code
        /\ (forall e, runtime_fault H code = Some e -> out = code)
        /\ (runtime_fault H code = None -> out = basicFormat code)).
Proof.
  unfold beautify, try_catch, ret.
  destruct (isAvailable H w) eqn:Ha.
  - unfold isAvailable in Ha.
    destruct (js_beautify H w) as [engine|] eqn:Hj; [|discriminate].
    destruct (engine code) as [s|e] eqn:He.
    + exists s. split; [reflexivity|]. split; [|discriminate].
      intros engine' _ E. injection E as <-. rewrite He.
      split; intros ? E; now inversion E.
    + exists code. split; [reflexivity|]. split; [|discriminate].
      intros engine' _ E. injection E as <-. rewrite He.
      split; intros ? E; now inversion E.
  - exists (basicBeautify H code). split; [reflexivity|].
    split; [discriminate|]. intros _. rewrite basicBeautify_cases.
    split; [reflexivity|]. split.
    + now intros e ->.
    + now intros ->.
Qed.

Lemma try_download_threw_cases (asset : Asset) (options : DownloadOptions)
      (w w1 : World) (e : JsError) :
  try_download H asset options w = (Throw e, w1) ->
  (exists w0, resolve_url H asset options w = (Throw e, w0) /\ w1 = w0)
  \/ (exists url w0,
         resolve_url H asset options w = (Normal url, w0)
         /\ downloads_download H w0 (request_for asset url) = Throw e
         /\ w1 = w0 ++ [DownloadCalled (request_for asset url)]).
Proof.
  unfold try_download. unfold_monad.
  destruct (resolve_url H asset options w) as [[u|e0] w0].
  - fold (request_for asset u).
    destruct (downloads_download H w0 (request_for asset u)) as [id|e1] eqn:Hd.
    + destruct (startsWith (js"blob:") u); discriminate.
    + intros E. injection E as <- <-. right. now exists u, w0.
  - intros E. injection E as <- <-. left. now exists w0.
Qed.

(** The release of a content handle is scheduled, 5000 ms ahead, once
    the host has accepted the download. *)
Lemma release_after_accepted_save (asset : Asset) (options : DownloadOptions)
      (w w0 : World) (url : jsstr) (id : nat) :
  resolve_url H asset options w = (Normal url, w0) ->
  startsWith (js"blob:") url = true ->
  downloads_download H w0 (request_for asset url) = Normal id ->
  downloadFile H asset options w =
  (Normal (succeeded id asset),
   w0 ++ [DownloadCalled (request_for asset url)]
      ++ [TimeoutSet (RevokeObjectURL url) 5000]
      ++ [TimeoutSet (CheckDownloadPath id) 1000]).
Proof.
  intros Er Hb Hd. unfold downloadFile, try_download. unfold_monad.
  rewrite Er. fold (request_for asset url). rewrite Hd, Hb.
  now rewrite <- !app_assoc.
Qed.

(** When the host rejects the download, nothing is scheduled: the calls
    made are those of the resolution and the download itself. *)
Lemma no_release_after_rejected_save (asset : Asset) (options : DownloadOptions)
      (w w0 : World) (url : jsstr) (e : JsError) :
  resolve_url H asset options w = (Normal url, w0) ->
  downloads_download H w0 (request_for asset url) = Throw e ->
  downloadFile H asset options w =
  (Normal (failure e asset), w0 ++ [DownloadCalled (request_for asset url)]).
Proof.
  intros Er Hd. unfold downloadFile, try_download. unfold_monad.
  rewrite Er. fold (request_for asset url). now rewrite Hd.
Qed.

End Format.

Lemma beautify_total_witness :
  exists out,
    beautify broken_engine_host (js"a;b") [] = (Normal out, [])
    /\ out = js"a;b".
Proof.
  destruct (@beautify_total broken_engine_host (js"a;b") [])
    as (out & E & Hengine & _).
  exists out. split; [exact E|].
  destruct (Hengine (fun _ => Throw (Error (js"Unexpected token")))
                    eq_refl eq_refl) as [Hthrow _].
  exact (Hthrow _ eq_refl).
Defined.

(** C9 on the failing input: an inline script is formatted and wrapped in
    a content handle, the host rejects the download, and [downloadFile]
    returns the failure record without having scheduled the release of
    the handle. *)
Theorem content_handle_leaks_on_rejected_save :
  exists content url result w',
    downloadFile rejecting_host inline_asset beautify_on [] = (Normal result, w')
    /\ success result = false
    /\ error result = Some (js"Download canceled by the user")
    /\ In (ObjectURLCreated content (js"application/javascript") url) w'
    /\ startsWith (js"blob:") url = true
    /\ release_scheduled url w' = false
    /\ w' = [ObjectURLCreated content (js"application/javascript") url;
             DownloadCalled (request_for inline_asset url)].
Proof.
  eexists _, _, _, _. split; [vm_compute; reflexivity|].
  repeat split; try reflexivity. now left.
Qed.

(** With a host that accepts the download, the same asset has the
    release of its handle scheduled. *)
Lemma content_handle_released_on_accepted_save :
  exists result w',
    downloadFile accepting_host inline_asset beautify_on [] = (Normal result, w')
    /\ success result = true
    /\ release_scheduled (js"blob:extension/0") w' = true.
Proof.
  eexists _, _. split; [vm_compute; reflexivity|]. now split.
Qed.

End BackgroundFacts.

(** * Properties of the heuristic formatter *)

Module FormatterFacts.

Import Background FormatSpec Samples.


(** ** Characters *)

Lemma is_lf_eq (c : ascii) : is_lf c = true -> c = lf.
Proof. apply Ascii.eqb_eq. Qed.

Lemma is_lf_space (c : ascii) : is_lf c = true -> is_space c = true.
Proof. intros E. now rewrite (is_lf_eq _ E). Qed.

Lemma space_not_ident (c : ascii) : is_space c = true -> is_ident_start c = false.
Proof.
  unfold is_space, is_ident_start, code_in.
  destruct (nat_of_ascii c <=? 13) eqn:E1, (32 <=? nat_of_ascii c) eqn:E2,
           (nat_of_ascii c <=? 32) eqn:E3, (160 <=? nat_of_ascii c) eqn:E4;
    rewrite ?Nat.leb_le, ?Nat.leb_gt in *; intros Hs;
      repeat match goal with
             | |- context [?a <=? ?b] =>
               let E := fresh in destruct (a <=? b) eqn:E;
                                 rewrite ?Nat.leb_le, ?Nat.leb_gt in E
             end; cbn in *; try reflexivity; try discriminate; lia.
Qed.

Ltac case_eqb c k :=
  let E := fresh "E" in
  destruct (Ascii.eqb c k) eqn:E; [apply Ascii.eqb_eq in E; subst c|].

Ltac case_char c :=
  case_eqb c rbrace;
  [|case_eqb c semicolon; [|case_eqb c lbrace; [|case_eqb c comma]]].

(** ** The replacements as one scan *)

Lemma replace_char_app (c : ascii) (rep a b : jsstr) :
  replace_char c rep (a ++ b) = replace_char c rep a ++ replace_char c rep b.
Proof. apply flat_map_app. Qed.

Lemma three_replacements (s : jsstr) :
  replace_char rbrace [lf; rbrace; lf]
    (replace_char lbrace [lbrace; lf]
      (replace_char semicolon [semicolon; lf] s)) = flat_map brk3 s.
Proof.
  induction s as [|c r IH]; [reflexivity|].
  change (c :: r) with ([c] ++ r).
  rewrite flat_map_app. unfold replace_char at 3. rewrite flat_map_app.
  fold (replace_char semicolon [semicolon; lf] r).
  rewrite !replace_char_app, IH. f_equal.
  unfold replace_char, brk3. cbn [flat_map app].
  case_char c; try reflexivity.
  all: cbn [flat_map app]; rewrite E1; cbn [flat_map app]; now rewrite E.
Qed.

Lemma brk3_other (c : ascii) :
  Ascii.eqb c rbrace = false -> Ascii.eqb c semicolon = false ->
  Ascii.eqb c lbrace = false -> brk3 c = [c].
Proof. unfold brk3. now intros -> -> ->. Qed.

Lemma out_other (c : ascii) (ahead : bool) :
  Ascii.eqb c rbrace = false -> Ascii.eqb c semicolon = false ->
  Ascii.eqb c lbrace = false -> Ascii.eqb c comma = false -> out c ahead = [c].
Proof. unfold out. intros E1 E2 E3 ->. now apply brk3_other. Qed.

Lemma starts_ws_ident_brk3 (ctx : jsstr) :
  forall s, starts_ws_ident (flat_map brk3 s ++ ctx) = starts_ws_ident (s ++ ctx).
Proof.
  induction s as [|c r IH]; [reflexivity|].
  cbn [flat_map]. rewrite <- app_assoc.
  case_char c; try reflexivity; rewrite brk3_other by assumption;
    cbn [app starts_ws_ident]; now rewrite IH.
Qed.

Lemma break_after_commas_breaks (ctx : jsstr) :
  forall s, break_after_commas (flat_map brk3 s ++ ctx) =
            breaks ctx s ++ break_after_commas ctx.
Proof.
  induction s as [|c r IH]; [reflexivity|].
  cbn [flat_map breaks]. rewrite <- !app_assoc.
  case_char c.
  - change (brk3 rbrace) with [lf; rbrace; lf].
    change (out rbrace (starts_ws_ident (r ++ ctx))) with [lf; rbrace; lf].
    cbn [app break_after_commas].
    change (Ascii.eqb lf ","%char) with false.
    change (Ascii.eqb rbrace ","%char) with false.
    cbn [andb]. now rewrite IH.
  - change (brk3 semicolon) with [semicolon; lf].
    change (out semicolon (starts_ws_ident (r ++ ctx))) with [semicolon; lf].
    cbn [app break_after_commas].
    change (Ascii.eqb lf ","%char) with false.
    change (Ascii.eqb semicolon ","%char) with false.
    cbn [andb]. now rewrite IH.
  - change (brk3 lbrace) with [lbrace; lf].
    change (out lbrace (starts_ws_ident (r ++ ctx))) with [lbrace; lf].
    cbn [app break_after_commas].
    change (Ascii.eqb lf ","%char) with false.
    change (Ascii.eqb lbrace ","%char) with false.
    cbn [andb]. now rewrite IH.
  - change (brk3 comma) with [comma]. cbn [app break_after_commas].
    rewrite starts_ws_ident_brk3, IH.
    change (Ascii.eqb comma ","%char) with true. cbn [andb]. unfold out.
    change (Ascii.eqb comma comma) with true. cbn [andb].
    now destruct (starts_ws_ident (r ++ ctx)).
  - rewrite brk3_other, out_other by assumption.
    cbn [app break_after_commas]. fold comma. rewrite E2. cbn [andb].
    now rewrite IH.
Qed.

Lemma formatted_breaks (code : jsstr) :
  formatted code =
  replace_runs is_lf 3 [lf; lf] 0 (collapse_blank 0 (breaks [] code)).
Proof.
  unfold formatted. fold semicolon lbrace rbrace. rewrite three_replacements.
  rewrite <- (app_nil_r (flat_map brk3 code)), break_after_commas_breaks.
  now rewrite app_nil_r.
Qed.

Lemma split_breaks (ctx : jsstr) :
  forall s cur, split_lf_aux cur (breaks ctx s) = pieces ctx cur s.
Proof.
  induction s as [|c r IH]; intros cur; [reflexivity|].
  cbn [breaks pieces].
  case_char c.
  - change (out rbrace (starts_ws_ident (r ++ ctx))) with [lf; rbrace; lf].
    change (Ascii.eqb rbrace rbrace) with true.
    cbn [app split_lf_aux]. change (is_lf lf) with true.
    change (is_lf rbrace) with false. cbn [rev app]. now rewrite IH.
  - change (out semicolon (starts_ws_ident (r ++ ctx))) with [semicolon; lf].
    change (Ascii.eqb semicolon rbrace) with false.
    change (is_lf semicolon) with false.
    change (Ascii.eqb semicolon semicolon) with true.
    cbn [orb app split_lf_aux]. change (is_lf lf) with true.
    change (is_lf semicolon) with false. now rewrite IH.
  - change (out lbrace (starts_ws_ident (r ++ ctx))) with [lbrace; lf].
    change (Ascii.eqb lbrace rbrace) with false.
    change (is_lf lbrace) with false.
    change (Ascii.eqb lbrace semicolon) with false.
    change (Ascii.eqb lbrace lbrace) with true.
    cbn [orb app split_lf_aux]. change (is_lf lf) with true.
    change (is_lf lbrace) with false. now rewrite IH.
  - unfold out. change (Ascii.eqb comma comma) with true.
    change (Ascii.eqb comma rbrace) with false.
    change (is_lf comma) with false.
    change (Ascii.eqb comma semicolon) with false.
    change (Ascii.eqb comma lbrace) with false. cbn [orb andb].
    destruct (starts_ws_ident (r ++ ctx)).
    + cbn [app split_lf_aux]. change (is_lf lf) with true.
      change (is_lf comma) with false. now rewrite IH.
    + change (brk3 comma) with [comma]. cbn [app split_lf_aux].
      change (is_lf comma) with false. now rewrite IH.
  - rewrite out_other by assumption.
    cbn [orb andb app split_lf_aux].
    destruct (is_lf c); now rewrite IH.
Qed.

(** ** Lines *)

Lemma split_lf_aux_cur :
  forall s cur,
    split_lf_aux cur s =
    match split_lf s with
    | h :: t => (rev cur ++ h) :: t
    | [] => []
    end.
Proof.
  unfold split_lf.
  induction s as [|c r IH]; intros cur; cbn [split_lf_aux].
  - cbn. now rewrite app_nil_r.
  - destruct (is_lf c).
    + cbn. now rewrite app_nil_r.
    + rewrite (IH (c :: cur)), (IH [c]).
      destruct (split_lf_aux [] r); [reflexivity|].
      cbn [rev app]. now rewrite <- app_assoc.
Qed.

Lemma split_lf_nonempty (s : jsstr) : split_lf s <> [].
Proof.
  unfold split_lf. generalize (@nil ascii).
  induction s as [|c r IH]; intros cur; cbn [split_lf_aux]; [discriminate|].
  destruct (is_lf c); [discriminate|apply IH].
Qed.

Lemma split_lf_cons (c : ascii) (s : jsstr) :
  is_lf c = false ->
  split_lf (c :: s) =
  match split_lf s with
  | h :: t => (c :: h) :: t
  | [] => []
  end.
Proof.
  intros E. unfold split_lf at 1. cbn [split_lf_aux]. rewrite E.
  now rewrite split_lf_aux_cur.
Qed.

Lemma split_lf_lf (s : jsstr) : split_lf (lf :: s) = [] :: split_lf s.
Proof. reflexivity. Qed.

Lemma split_lf_app (a b : jsstr) :
  split_lf (a ++ lf :: b) = split_lf a ++ split_lf b.
Proof.
  induction a as [|c a IH]; [reflexivity|].
  cbn [app]. destruct (is_lf c) eqn:E.
  - rewrite (is_lf_eq _ E), !split_lf_lf, IH. reflexivity.
  - rewrite !split_lf_cons, IH by assumption.
    pose proof (split_lf_nonempty a).
    now destruct (split_lf a).
Qed.

Lemma split_lf_blank (w : jsstr) :
  blank w = true -> Forall (fun l => blank l = true) (split_lf w).
Proof.
  induction w as [|c w IH]; intros Hb.
  - now repeat constructor.
  - cbn [blank forallb] in Hb. apply andb_prop in Hb as [Hc Hw].
    specialize (IH Hw). destruct (is_lf c) eqn:E.
    + rewrite (is_lf_eq _ E), split_lf_lf. now constructor.
    + rewrite split_lf_cons by assumption.
      destruct (split_lf w) as [|h t]; [constructor|].
      inversion IH as [|? ? Hh Ht]; subst. constructor; [|assumption].
      cbn [blank forallb]. now rewrite Hc.
Qed.

(** ** Blank lines: [/\n\s*\n/] *)

Lemma match_ws_lf_some :
  forall r k,
    match_ws_lf r = Some k ->
    exists w r',
      r = w ++ lf :: r' /\ length (w ++ [lf]) = k /\ blank w = true
      /\ match_ws_lf r' = None.
Proof.
  induction r as [|c r IH]; intros k; cbn [match_ws_lf]; [discriminate|].
  destruct (is_space c) eqn:Hc; [|discriminate].
  destruct (match_ws_lf r) as [k0|] eqn:Hm.
  - intros E. injection E as <-.
    destruct (IH _ eq_refl) as (w & r' & -> & Hl & Hb & Hn).
    exists (c :: w), r'. cbn [app length blank forallb]. rewrite Hc.
    repeat split; try assumption. now rewrite Hl.
  - destruct (is_lf c) eqn:El; [|discriminate].
    intros E. injection E as <-. rewrite (is_lf_eq _ El).
    now exists [], r.
Qed.

Lemma match_ws_lf_blank :
  forall w r, blank w = true -> match_ws_lf (w ++ lf :: r) <> None.
Proof.
  induction w as [|c w IH]; intros r Hb.
  - cbn. now destruct (match_ws_lf r).
  - cbn [blank forallb] in Hb. apply andb_prop in Hb as [Hc Hw].
    cbn [app match_ws_lf]. rewrite Hc. specialize (IH r Hw).
    now destruct (match_ws_lf (w ++ lf :: r)).
Qed.

Lemma match_ws_lf_none_line (r : jsstr) :
  match_ws_lf r = None ->
  match split_lf r with
  | [] => False
  | [_] => True
  | h :: _ => blank h = false
  end.
Proof.
  induction r as [|c r IH]; [now intros _|].
  cbn [match_ws_lf]. destruct (is_space c) eqn:Hc.
  - destruct (match_ws_lf r) eqn:Hm; [discriminate|].
    destruct (is_lf c) eqn:El; [discriminate|]. intros _.
    specialize (IH eq_refl). rewrite split_lf_cons by assumption.
    destruct (split_lf r) as [|h [|h' t]]; try assumption.
    cbn [blank forallb]. now rewrite Hc.
  - intros _. assert (El : is_lf c = false).
    { destruct (is_lf c) eqn:El; [|reflexivity].
      now rewrite (is_lf_space _ El) in Hc. }
    rewrite split_lf_cons by assumption.
    pose proof (split_lf_nonempty r).
    destruct (split_lf r) as [|h [|h' t]]; try easy.
    cbn [blank forallb]. now rewrite Hc.
Qed.

Lemma collapse_blank_skip :
  forall u r, collapse_blank (length u) (u ++ r) = collapse_blank 0 r.
Proof.
  induction u as [|c u IH]; intros r; [reflexivity|].
  cbn [length app collapse_blank]. apply IH.
Qed.

Lemma collapse_blank_other (c : ascii) (r : jsstr) :
  is_lf c = false -> collapse_blank 0 (c :: r) = c :: collapse_blank 0 r.
Proof. cbn [collapse_blank]. now intros ->. Qed.

Lemma collapse_blank_lf_none (r : jsstr) :
  match_ws_lf r = None -> collapse_blank 0 (lf :: r) = lf :: collapse_blank 0 r.
Proof. cbn [collapse_blank]. change (is_lf lf) with true. now intros ->. Qed.

Lemma collapse_blank_lf_some (w r : jsstr) :
  blank w = true -> match_ws_lf r = None ->
  collapse_blank 0 (lf :: w ++ lf :: r) = lf :: collapse_blank 0 r.
Proof.
  intros Hb Hn. cbn [collapse_blank]. change (is_lf lf) with true. cbn match.
  destruct (match_ws_lf (w ++ lf :: r)) as [k|] eqn:Hm.
  - destruct (match_ws_lf_some _ Hm) as (w' & r' & E & Hl & Hb' & Hn').
    f_equal. rewrite <- Hl, E.
    replace (w' ++ lf :: r') with ((w' ++ [lf]) ++ r')
      by now rewrite <- app_assoc.
    rewrite collapse_blank_skip.
    (* the longest match ends at the same line feed *)
    enough (r' = r) by now subst.
    clear Hm Hl. revert w' E Hb'.
    induction w as [|c w IH]; intros w' E Hb'.
    + destruct w' as [|c' w'].
      * now injection E.
      * cbn [app] in E. injection E as <- ->.
        cbn [blank forallb] in Hb'. apply andb_prop in Hb' as [_ Hb'].
        exfalso. now apply (match_ws_lf_blank w' r').
    + cbn [blank forallb] in Hb. apply andb_prop in Hb as [Hc Hw].
      destruct w' as [|c' w'].
      * cbn [app] in E. injection E as -> <-.
        exfalso. now apply (match_ws_lf_blank w r).
      * cbn [app] in E. injection E as <- E.
        cbn [blank forallb] in Hb'. apply andb_prop in Hb' as [_ Hb'].
        now apply (IH Hw w').
  - exfalso. now apply (match_ws_lf_blank w r).
Qed.

Lemma squeeze_tail_blank_prefix (bl rest : list jsstr) :
  Forall (fun l => blank l = true) bl -> rest <> [] ->
  squeeze_tail (bl ++ rest) = squeeze_tail rest.
Proof.
  intros Hb Hr. induction Hb as [|b bl Hb _ IH]; [reflexivity|].
  cbn [app squeeze_tail]. rewrite Hb, IH.
  destruct (bl ++ rest) eqn:E; [|reflexivity].
  apply app_eq_nil in E as [_ ->]. contradiction.
Qed.

Lemma squeeze_tail_first_line (r : jsstr) :
  match_ws_lf r = None -> squeeze_tail (split_lf r) = squeeze (split_lf r).
Proof.
  intros Hn. apply match_ws_lf_none_line in Hn.
  destruct (split_lf r) as [|h [|h' t]]; try easy.
  cbn [squeeze squeeze_tail]. now rewrite Hn.
Qed.

Lemma split_collapse_blank_bounded :
  forall n s, length s <= n ->
              split_lf (collapse_blank 0 s) = squeeze (split_lf s).
Proof.
  induction n as [|n IH]; intros s Hl.
  - destruct s; [reflexivity|cbn in Hl; lia].
  - destruct s as [|c r]; [reflexivity|]. cbn [length] in Hl.
    destruct (is_lf c) eqn:El.
    + apply is_lf_eq in El. subst c.
      destruct (match_ws_lf r) as [k|] eqn:Hm.
      * destruct (match_ws_lf_some _ Hm) as (w & r' & -> & _ & Hb & Hn).
        rewrite collapse_blank_lf_some by assumption.
        rewrite !split_lf_lf, split_lf_app, IH.
        2:{ rewrite length_app in Hl. cbn [length] in Hl. lia. }
        cbn [squeeze]. f_equal.
        rewrite squeeze_tail_blank_prefix.
        -- now rewrite squeeze_tail_first_line.
        -- now apply split_lf_blank.
        -- apply split_lf_nonempty.
      * rewrite collapse_blank_lf_none by assumption.
        rewrite !split_lf_lf, IH by lia. cbn [squeeze]. f_equal.
        now rewrite squeeze_tail_first_line.
    + rewrite collapse_blank_other by assumption.
      rewrite !split_lf_cons, IH by (assumption || lia).
      pose proof (split_lf_nonempty r).
      now destruct (split_lf r).
Qed.

Lemma split_collapse_blank (s : jsstr) :
  split_lf (collapse_blank 0 s) = squeeze (split_lf s).
Proof. now apply (split_collapse_blank_bounded (n := length s)). Qed.

Lemma collapse_blank_head (s : jsstr) :
  hd_error (collapse_blank 0 s) = hd_error s.
Proof.
  destruct s as [|c r]; [reflexivity|]. cbn [collapse_blank].
  destruct (is_lf c) eqn:El; [|reflexivity].
  rewrite (is_lf_eq _ El). now destruct (match_ws_lf r).
Qed.

Lemma no_lf_pair_collapse_bounded :
  forall n s, length s <= n -> no_lf_pair (collapse_blank 0 s) = true.
Proof.
  assert (Hhead : forall s,
             match_ws_lf s = None ->
             match collapse_blank 0 s with
             | b :: _ => is_lf b = false
             | [] => True
             end).
  { intros s Hn. pose proof (collapse_blank_head s) as Hh.
    destruct s as [|c r].
    - now destruct (collapse_blank 0 []).
    - destruct (collapse_blank 0 (c :: r)) as [|b t]; [exact I|].
      cbn in Hh. injection Hh as ->.
      destruct (is_lf c) eqn:El; [|reflexivity].
      rewrite (is_lf_eq _ El) in Hn. exfalso.
      now apply (match_ws_lf_blank [] r). }
  induction n as [|n IH]; intros s Hl.
  - destruct s; [reflexivity|cbn in Hl; lia].
  - destruct s as [|c r]; [reflexivity|]. cbn [length] in Hl.
    destruct (is_lf c) eqn:El.
    + apply is_lf_eq in El. subst c.
      destruct (match_ws_lf r) as [k|] eqn:Hm.
      * destruct (match_ws_lf_some _ Hm) as (w & r' & -> & _ & Hb & Hn).
        rewrite collapse_blank_lf_some by assumption.
        cbn [no_lf_pair]. rewrite IH.
        2:{ rewrite length_app in Hl. cbn [length] in Hl. lia. }
        specialize (Hhead _ Hn).
        destruct (collapse_blank 0 r') as [|b t]; [reflexivity|].
        now rewrite Hhead.
      * rewrite collapse_blank_lf_none by assumption.
        cbn [no_lf_pair]. rewrite IH by lia.
        specialize (Hhead _ Hm).
        destruct (collapse_blank 0 r) as [|b t]; [reflexivity|].
        now rewrite Hhead.
    + rewrite collapse_blank_other by assumption.
      cbn [no_lf_pair]. rewrite El, IH by lia. reflexivity.
Qed.

Lemma replace_runs_no_lf_pair :
  forall s, no_lf_pair s = true -> replace_runs is_lf 3 [lf; lf] 0 s = s.
Proof.
  induction s as [|c r IH]; [reflexivity|].
  cbn [no_lf_pair]. intros Hp. apply andb_prop in Hp as [Hc Hr].
  cbn [replace_runs run_length].
  destruct (is_lf c) eqn:El.
  - destruct r as [|b t].
    + reflexivity.
    + cbn [andb] in Hc. apply negb_true_iff in Hc.
      cbn [run_length]. rewrite Hc. cbn. f_equal. now apply IH.
  - cbn. f_equal. now apply IH.
Qed.

Lemma split_formatted (code : jsstr) :
  split_lf (formatted code) = squeeze (pieces [] [] code).
Proof.
  rewrite formatted_breaks, replace_runs_no_lf_pair.
  - rewrite split_collapse_blank. unfold split_lf. now rewrite split_breaks.
  - now apply (no_lf_pair_collapse_bounded (n := length (breaks [] code))).
Qed.

(** ** Trimming *)

Lemma trim_start_split (s : jsstr) :
  exists w, s = w ++ trim_start s /\ blank w = true.
Proof.
  induction s as [|c r (w & E & Hb)]; [now exists []|].
  cbn [trim_start]. destruct (is_space c) eqn:Hc.
  - exists (c :: w). cbn [app blank forallb]. rewrite Hc. split; [now f_equal|assumption].
  - now exists [].
Qed.

Lemma trim_start_head (s : jsstr) :
  match trim_start s with
  | c :: _ => is_space c = false
  | [] => True
  end.
Proof.
  induction s as [|c r IH]; [exact I|].
  cbn [trim_start]. destruct (is_space c) eqn:Hc; assumption.
Qed.

Lemma trim_start_fixed (s : jsstr) :
  match s with
  | c :: _ => is_space c = false
  | [] => True
  end -> trim_start s = s.
Proof. destruct s as [|c r]; [reflexivity|]. cbn. now intros ->. Qed.

Lemma trim_start_blank (w s : jsstr) :
  blank w = true -> trim_start (w ++ s) = trim_start s.
Proof.
  induction w as [|c w IH]; [reflexivity|].
  cbn [blank forallb app trim_start]. intros Hb.
  apply andb_prop in Hb as [-> Hw]. now apply IH.
Qed.

Lemma blank_app (a b : jsstr) : blank (a ++ b) = blank a && blank b.
Proof. apply forallb_app. Qed.

Lemma blank_rev (a : jsstr) : blank (rev a) = blank a.
Proof.
  induction a as [|c a IH]; [reflexivity|].
  cbn [rev]. rewrite blank_app, IH. cbn. now rewrite andb_true_r, andb_comm.
Qed.

(** A text is its trimmed text between two runs of white space. *)
Lemma trim_split (s : jsstr) :
  exists w1 w2, s = w1 ++ trim s ++ w2 /\ blank w1 = true /\ blank w2 = true.
Proof.
  destruct (trim_start_split s) as (w1 & E1 & Hb1).
  destruct (trim_start_split (rev (trim_start s))) as (w2 & E2 & Hb2).
  exists w1, (rev w2). unfold trim. repeat split; try assumption.
  - rewrite <- rev_app_distr, <- E2, rev_involutive. exact E1.
  - now rewrite blank_rev.
Qed.

(** A trimmed text is empty, or ends with a character that is not white
    space and starts with one. *)
Lemma trim_shape (s : jsstr) :
  trim s = []
  \/ exists t c, trim s = t ++ [c] /\ is_space c = false
                 /\ trim_start (trim s) = trim s.
Proof.
  unfold trim. pose proof (trim_start_head (rev (trim_start s))) as Hh.
  destruct (trim_start (rev (trim_start s))) as [|c t] eqn:E; [now left|].
  right. exists (rev t), c. cbn [rev]. repeat split; try assumption.
  apply trim_start_fixed.
  (* the head of the trimmed text is the head of [trim_start s] *)
  destruct (trim_start_split (rev (trim_start s))) as (w & Ew & _).
  rewrite E in Ew. apply (f_equal (@rev ascii)) in Ew.
  rewrite rev_involutive, rev_app_distr in Ew. cbn [rev] in Ew.
  pose proof (trim_start_head s) as Hs. rewrite Ew in Hs.
  destruct (rev t ++ [c]) as [|d u] eqn:Eu; [exact I|].
  cbn [app] in Hs. exact Hs.
Qed.

Lemma trim_fixed (q : jsstr) (t : jsstr) (c : ascii) :
  q = t ++ [c] -> is_space c = false -> trim_start q = q -> trim q = q.
Proof.
  intros -> Hc Hq. unfold trim. rewrite Hq, rev_app_distr. cbn [rev app trim_start].
  rewrite Hc. now rewrite <- (rev_involutive t) at 2.
Qed.

Lemma trim_nil : trim [] = [].
Proof. reflexivity. Qed.

Lemma trim_trim (s : jsstr) : trim (trim s) = trim s.
Proof.
  destruct (trim_shape s) as [->|(t & c & E & Hc & Hs)]; [reflexivity|].
  eapply trim_fixed; eassumption.
Qed.

Lemma trim_blank_prefix (w s : jsstr) : blank w = true -> trim (w ++ s) = trim s.
Proof. intros Hb. unfold trim. now rewrite trim_start_blank. Qed.

Lemma trim_blank (s : jsstr) : blank s = true -> trim s = [].
Proof.
  intros Hb. unfold trim.
  rewrite <- (app_nil_r s), trim_start_blank by assumption. reflexivity.
Qed.

Lemma blank_trim (s : jsstr) : blank (trim s) = blank s.
Proof.
  destruct (trim_split s) as (w1 & w2 & E & H1 & H2).
  rewrite E at 2. now rewrite !blank_app, H1, H2, andb_true_r.
Qed.

Lemma trim_empty_blank (s : jsstr) : trim s = [] -> blank s = true.
Proof. intros E. now rewrite <- blank_trim, E. Qed.

Lemma blank_nonempty_trim (s : jsstr) : blank s = false -> trim s <> [].
Proof.
  intros Hb E. apply trim_empty_blank in E. congruence.
Qed.

Lemma trim_In (s : jsstr) (c : ascii) : In c (trim s) -> In c s.
Proof.
  destruct (trim_split s) as (w1 & w2 & E & _). intros Hi. rewrite E.
  rewrite !in_app_iff. tauto.
Qed.

(** ** Texts that break no line *)

Lemma starts_ws_ident_nonspace (c : ascii) (x y : jsstr) :
  is_space c = false ->
  forall t, starts_ws_ident (t ++ c :: x) = starts_ws_ident (t ++ c :: y).
Proof.
  intros Hc. induction t as [|d t IH]; cbn [app starts_ws_ident].
  - now rewrite Hc.
  - now rewrite IH.
Qed.

Lemma plain_app (ctx a b : jsstr) :
  plain ctx (a ++ b) = plain (b ++ ctx) a && plain ctx b.
Proof.
  induction a as [|c a IH]; [reflexivity|].
  cbn [app plain]. now rewrite IH, <- app_assoc, andb_assoc.
Qed.

Lemma plain_context (c : ascii) (x y : jsstr) :
  is_space c = false ->
  forall t, plain (c :: x) t = plain (c :: y) t.
Proof.
  intros Hc. induction t as [|d t IH]; [reflexivity|].
  cbn [plain]. now rewrite IH, (@starts_ws_ident_nonspace c x y Hc).
Qed.

Lemma space_char (c : ascii) :
  Ascii.eqb c " "%char = true ->
  Ascii.eqb c rbrace = false /\ is_lf c = false /\ Ascii.eqb c semicolon = false
  /\ Ascii.eqb c lbrace = false /\ Ascii.eqb c comma = false /\ is_space c = true.
Proof. intros E. apply Ascii.eqb_eq in E. now subst c. Qed.

Lemma plain_spaces (ctx ind : jsstr) :
  forallb (fun c => Ascii.eqb c " "%char) ind = true -> plain ctx ind = true.
Proof.
  induction ind as [|c ind IH]; [reflexivity|].
  cbn [forallb plain]. intros Hs. apply andb_prop in Hs as [Hc Hi].
  destruct (space_char _ Hc) as (-> & -> & -> & -> & -> & _). now rewrite IH.
Qed.

Lemma blank_spaces (ind : jsstr) :
  forallb (fun c => Ascii.eqb c " "%char) ind = true -> blank ind = true.
Proof.
  induction ind as [|c ind IH]; [reflexivity|].
  cbn [forallb blank]. intros Hs. apply andb_prop in Hs as [Hc Hi].
  destruct (space_char _ Hc) as (_ & _ & _ & _ & _ & ->). now apply IH.
Qed.

Lemma plain_calm (ctx b : jsstr) : plain ctx b = true -> calm b = true.
Proof.
  unfold calm. induction b as [|c b IH]; [reflexivity|].
  cbn [plain forallb]. intros Hp. apply andb_prop in Hp as [Hc Hb].
  rewrite (IH Hb), andb_true_r.
  destruct (Ascii.eqb c rbrace), (Ascii.eqb c semicolon), (Ascii.eqb c lbrace),
    (is_lf c); cbn in Hc |- *; congruence.
Qed.

Lemma pieces_plain (ctx rest : jsstr) :
  forall b cur,
    plain (rest ++ ctx) b = true ->
    pieces ctx cur (b ++ rest) = pieces ctx (rev b ++ cur) rest.
Proof.
  induction b as [|c b IH]; intros cur; [reflexivity|].
  cbn [plain app pieces]. intros Hp. apply andb_prop in Hp as [Hc Hb].
  rewrite <- app_assoc.
  destruct (Ascii.eqb c rbrace); [discriminate|].
  destruct (is_lf c); [discriminate|].
  cbn [orb] in Hc. apply negb_true_iff in Hc. rewrite Hc.
  rewrite (IH (c :: cur) Hb). cbn [rev]. now rewrite <- app_assoc.
Qed.

Lemma pieces_nonempty (ctx : jsstr) :
  forall s cur, pieces ctx cur s <> [].
Proof.
  induction s as [|c r IH]; intros cur; cbn [pieces]; [discriminate|].
  destruct (Ascii.eqb c rbrace); [discriminate|].
  destruct (is_lf c); [discriminate|].
  destruct (_ || _); [discriminate|apply IH].
Qed.

Lemma pieces_app_lf (ctx rest : jsstr) :
  forall a cur,
    pieces ctx cur (a ++ lf :: rest) =
    pieces (lf :: rest ++ ctx) cur a ++ pieces ctx [] rest.
Proof.
  induction a as [|c a IH]; intros cur; [reflexivity|].
  cbn [app pieces]. rewrite <- !app_assoc. cbn [app].
  destruct (Ascii.eqb c rbrace); [now rewrite IH|].
  destruct (is_lf c); [now rewrite IH|].
  destruct (_ || _); now rewrite IH.
Qed.

(** ** The lines of the first pass *)

Lemma plain_trim_settled (ctx b : jsstr) :
  plain ctx b = true -> settled (trim b).
Proof.
  intros Hp. destruct (trim_shape b) as [E|(t & c & E & Hc & Hs)]; [now left|].
  right. right. exists t, c.
  destruct (trim_split b) as (w1 & w2 & Eb & _).
  rewrite Eb, E in Hp. rewrite !plain_app in Hp.
  apply andb_prop in Hp as [_ Hp]. apply andb_prop in Hp as [Hp _].
  apply andb_prop in Hp as [Ht Hp].
  repeat split; try assumption.
  - cbn [plain] in Hp. rewrite andb_true_r in Hp. apply negb_true_iff in Hp.
    now destruct (Ascii.eqb c rbrace).
  - cbn [app] in Ht. now rewrite (@plain_context c [] (w2 ++ ctx) Hc).
Qed.

Lemma plain_closed_settled (ctx b : jsstr) (c : ascii) :
  plain (c :: ctx) b = true -> is_space c = false -> Ascii.eqb c rbrace = false ->
  settled (trim (b ++ [c])).
Proof.
  intros Hp Hc Hr. destruct (trim_start_split b) as (w & E & Hw).
  rewrite E, <- app_assoc, trim_blank_prefix by assumption.
  assert (Hq : trim_start (trim_start b ++ [c]) = trim_start b ++ [c]).
  { apply trim_start_fixed. pose proof (trim_start_head b) as Hh.
    destruct (trim_start b); [exact Hc|exact Hh]. }
  rewrite (@trim_fixed _ (trim_start b) c eq_refl Hc Hq).
  right. right. exists (trim_start b), c. repeat split; try assumption.
  rewrite E, plain_app in Hp. apply andb_prop in Hp as [_ Hp].
  now rewrite (@plain_context c [] ctx Hc).
Qed.

Lemma pieces_settled (ctx : jsstr) :
  forall s cur,
    plain (s ++ ctx) (rev cur) = true ->
    Forall settled (map trim (pieces ctx cur s)).
Proof.
  induction s as [|c r IH]; intros cur Hp; cbn [pieces].
  - cbn [map]. constructor; [|constructor]. now apply (plain_trim_settled ctx).
  - cbn [app] in Hp.
    destruct (Ascii.eqb c rbrace) eqn:Er.
    { cbn [map]. constructor; [now apply (plain_trim_settled (c :: r ++ ctx))|].
      constructor; [right; now left|]. now apply IH. }
    destruct (is_lf c) eqn:El.
    { cbn [map]. constructor; [now apply (plain_trim_settled (c :: r ++ ctx))|].
      now apply IH. }
    destruct (Ascii.eqb c semicolon || Ascii.eqb c lbrace
              || Ascii.eqb c comma && starts_ws_ident (r ++ ctx)) eqn:Ec.
    + cbn [map rev]. constructor; [|now apply IH].
      apply (plain_closed_settled (r ++ ctx)); try assumption.
      destruct (is_space c) eqn:Hs; [|reflexivity].
      case_char c; try discriminate.
    + apply IH. cbn [rev]. rewrite plain_app. cbn [app]. rewrite Hp.
      cbn [plain app]. apply orb_false_iff in Ec as [Ec Ec3].
      apply orb_false_iff in Ec as [Ec1 Ec2].
      now rewrite Er, El, Ec1, Ec2, Ec3.
Qed.

Lemma pieces_first (ctx : jsstr) :
  forall s cur,
    ~ In rbrace cur ->
    match pieces ctx cur s with
    | h :: _ => ~ In rbrace h
    | [] => False
    end.
Proof.
  induction s as [|c r IH]; intros cur Hn; cbn [pieces].
  - now rewrite <- in_rev.
  - destruct (Ascii.eqb c rbrace) eqn:Er; [now rewrite <- in_rev|].
    destruct (is_lf c); [now rewrite <- in_rev|].
    assert (Hc : ~ In rbrace (c :: cur)).
    { intros [->|Hi]; [discriminate Er|contradiction]. }
    destruct (_ || _); [now rewrite <- in_rev|now apply IH].
Qed.

Lemma calm_rev (q : jsstr) : calm (rev q) = calm q.
Proof.
  unfold calm. induction q as [|c q IH]; [reflexivity|].
  cbn [rev forallb]. rewrite forallb_app, IH. cbn [forallb].
  now rewrite andb_true_r, andb_comm.
Qed.

Lemma last_cons (A : Type) (a d : A) (l : list A) :
  l <> [] -> last (a :: l) d = last l d.
Proof. now destruct l. Qed.

Lemma pieces_last (ctx : jsstr) :
  forall s cur, calm cur = true -> calm (last (pieces ctx cur s) []) = true.
Proof.
  induction s as [|c r IH]; intros cur Hc; cbn [pieces].
  - cbn [last]. now rewrite calm_rev.
  - pose proof (pieces_nonempty ctx r []) as Hne.
    destruct (Ascii.eqb c rbrace) eqn:Er.
    { rewrite !last_cons by (assumption || discriminate). now apply IH. }
    destruct (is_lf c).
    { rewrite last_cons by assumption. now apply IH. }
    destruct (Ascii.eqb c semicolon || Ascii.eqb c lbrace
              || Ascii.eqb c comma && starts_ws_ident (r ++ ctx)) eqn:Ec.
    + rewrite last_cons by assumption. now apply IH.
    + apply IH. unfold calm in *. cbn [forallb]. rewrite Hc, andb_true_r.
      rewrite Er. apply orb_false_iff in Ec as [Ec _].
      now rewrite Ec.
Qed.

Lemma calm_trim (s : jsstr) : calm s = true -> calm (trim s) = true.
Proof.
  unfold calm. rewrite !forallb_forall. intros Hs c Hi.
  apply Hs. now apply trim_In.
Qed.

(** ** The lines of the second pass *)

Lemma pieces_blank_line (ctx ind : jsstr) :
  forallb (fun c => Ascii.eqb c " "%char) ind = true ->
  map trim (pieces ctx [] ind) = [[]].
Proof.
  intros Hs. rewrite <- (app_nil_r ind), pieces_plain.
  - cbn [pieces map]. rewrite app_nil_r, rev_involutive.
    now rewrite trim_blank by now apply blank_spaces.
  - now apply plain_spaces.
Qed.

Lemma pieces_rbrace_line (ctx ind : jsstr) :
  forallb (fun c => Ascii.eqb c " "%char) ind = true ->
  map trim (pieces ctx [] (ind ++ [rbrace])) = [[]; [rbrace]; []].
Proof.
  intros Hs. rewrite pieces_plain by now apply plain_spaces.
  cbn [pieces map]. change (Ascii.eqb rbrace rbrace) with true. cbn [map].
  rewrite app_nil_r, rev_involutive.
  now rewrite trim_blank by now apply blank_spaces.
Qed.

Lemma pieces_stable_line (ctx ind t : jsstr) (c : ascii) :
  forallb (fun c => Ascii.eqb c " "%char) ind = true ->
  is_space c = false -> Ascii.eqb c rbrace = false ->
  plain [c] t = true -> trim_start (t ++ [c]) = t ++ [c] ->
  map trim (pieces ctx [] (ind ++ t ++ [c])) =
  if closes c ctx then [t ++ [c]; []] else [t ++ [c]].
Proof.
  intros Hs Hc Hr Hp Hq.
  assert (El : is_lf c = false).
  { destruct (is_lf c) eqn:El; [|reflexivity].
    now rewrite (is_lf_space _ El) in Hc. }
  assert (Et : trim ((ind ++ t) ++ [c]) = t ++ [c]).
  { rewrite <- app_assoc, trim_blank_prefix by now apply blank_spaces.
    now apply (@trim_fixed _ t c eq_refl Hc). }
  rewrite app_assoc, pieces_plain.
  2:{ rewrite plain_app, plain_spaces by assumption.
      cbn [andb app]. now rewrite (@plain_context c ctx [] Hc). }
  cbn [pieces]. rewrite Hr, El, app_nil_r. cbn [app]. fold (closes c ctx).
  destruct (closes c ctx); cbn [map rev]; rewrite rev_involutive, Et;
    reflexivity.
Qed.

(** ** Indentation *)

Lemma indent_lines_trim :
  forall lines level,
    indent_lines level lines = indent_lines level (map trim lines).
Proof.
  induction lines as [|l rest IH]; intros level; [reflexivity|].
  cbn [indent_lines map]. rewrite trim_trim.
  destruct (trim l); now rewrite IH.
Qed.

Lemma spaces_repeat (n : nat) :
  forallb (fun c => Ascii.eqb c " "%char) (repeat_str (js"  ") n) = true.
Proof. induction n as [|n IH]; [reflexivity|]. cbn. exact IH. Qed.

Lemma indent_lines_indented :
  forall lines level,
    Forall2 indented (map trim lines) (indent_lines level lines).
Proof.
  induction lines as [|l rest IH]; intros level; [constructor|].
  cbn [indent_lines map].
  destruct (trim l) as [|c t] eqn:E.
  - constructor; [now exists []|apply IH].
  - constructor; [|apply IH].
    eexists. split; [reflexivity|apply spaces_repeat].
Qed.

(** ** Squeezed lines *)

Lemma squeeze_tail_cons (l : jsstr) (rest : list jsstr) :
  rest <> [] ->
  squeeze_tail (l :: rest) =
  if blank l then squeeze_tail rest else l :: squeeze_tail rest.
Proof. now destruct rest. Qed.

Lemma map_trim_squeeze_tail (lines : list jsstr) :
  map trim (squeeze_tail lines) = squeeze_tail (map trim lines).
Proof.
  induction lines as [|l [|l' rest] IH]; try reflexivity.
  cbn [map] in *.
  rewrite (@squeeze_tail_cons l), (@squeeze_tail_cons (trim l)), blank_trim
    by discriminate.
  destruct (blank l); cbn [map]; now rewrite IH.
Qed.

Lemma map_trim_squeeze (lines : list jsstr) :
  map trim (squeeze lines) = squeeze (map trim lines).
Proof.
  destruct lines as [|l rest]; [reflexivity|].
  cbn [squeeze map]. now rewrite map_trim_squeeze_tail.
Qed.

Lemma squeeze_tail_Forall (P : jsstr -> Prop) (lines : list jsstr) :
  Forall P lines -> Forall P (squeeze_tail lines).
Proof.
  induction lines as [|l [|l' rest] IH]; intros Hf; try assumption.
  inversion Hf as [|? ? Hl Hr]; subst. specialize (IH Hr).
  rewrite squeeze_tail_cons by discriminate.
  destruct (blank l); [assumption|now constructor].
Qed.

Lemma squeeze_Forall (P : jsstr -> Prop) (lines : list jsstr) :
  Forall P lines -> Forall P (squeeze lines).
Proof.
  destruct lines as [|l rest]; [trivial|]. intros Hf.
  inversion Hf; subst. constructor; [assumption|now apply squeeze_tail_Forall].
Qed.

Lemma squeeze_tail_nonempty (lines : list jsstr) :
  lines <> [] -> squeeze_tail lines <> [].
Proof.
  induction lines as [|l [|l' rest] IH]; intros Hn; try easy.
  rewrite squeeze_tail_cons by discriminate.
  destruct (blank l); [now apply IH|discriminate].
Qed.

Lemma squeeze_tail_last (lines : list jsstr) :
  last (squeeze_tail lines) [] = last lines [].
Proof.
  induction lines as [|l [|l' rest] IH]; try reflexivity.
  rewrite (last_cons l []) by discriminate.
  rewrite squeeze_tail_cons by discriminate.
  destruct (blank l); [exact IH|].
  rewrite last_cons; [exact IH|]. now apply squeeze_tail_nonempty.
Qed.

Lemma squeeze_last (lines : list jsstr) :
  last (squeeze lines) [] = last lines [].
Proof.
  destruct lines as [|l rest]; [reflexivity|]. cbn [squeeze].
  destruct rest as [|l' rest]; [reflexivity|].
  rewrite !(last_cons l []); [apply squeeze_tail_last|discriminate|].
  now apply squeeze_tail_nonempty.
Qed.

Lemma normal_tail_cons (l : jsstr) (rest : list jsstr) :
  rest <> [] -> normal_tail (l :: rest) = negb (blank l) && normal_tail rest.
Proof. now destruct rest. Qed.

Lemma squeeze_tail_normal (lines : list jsstr) :
  normal_tail (squeeze_tail lines) = true.
Proof.
  induction lines as [|l [|l' rest] IH]; try reflexivity.
  rewrite squeeze_tail_cons by discriminate.
  destruct (blank l) eqn:Hb; [exact IH|].
  rewrite normal_tail_cons by now apply squeeze_tail_nonempty.
  now rewrite Hb, IH.
Qed.

Lemma map_last (lines : list jsstr) :
  last (map trim lines) [] = trim (last lines []).
Proof.
  induction lines as [|l [|l' rest] IH]; try reflexivity.
  cbn [map] in *.
  rewrite (@last_cons _ (trim l) []), (@last_cons _ l []) by discriminate.
  exact IH.
Qed.

(** ** The second pass over the lines of the first *)

Lemma closes_calm (t : jsstr) (c : ascii) (ctx : jsstr) :
  calm (t ++ [c]) = true -> closes c ctx = true -> starts_ws_ident ctx = true.
Proof.
  unfold calm, closes. rewrite forallb_app. cbn [forallb].
  rewrite andb_true_r. intros Hc. apply andb_prop in Hc as [_ Hc].
  apply negb_true_iff in Hc.
  destruct (Ascii.eqb c semicolon), (Ascii.eqb c lbrace); try discriminate.
  cbn [orb]. intros Hx. now apply andb_prop in Hx as [_ Hx].
Qed.

(** What the scan makes of one line of the first pass behind its
    indentation: the line itself, with an empty line after it when it ends
    a statement, a block or a broken list, and between two empty lines when
    it is a closing brace. *)
Lemma line_pieces (ctx q line : jsstr) :
  indented q line -> settled q ->
  let P := map trim (pieces ctx [] line) in
  (q = [] /\ P = [[]])
  \/ (q = [rbrace] /\ P = [[]; q; []])
  \/ (blank q = false /\ q <> [rbrace]
      /\ (P = [q] \/ (P = [q; []] /\ (calm q = true -> starts_ws_ident ctx = true)))).
Proof.
  intros (ind & -> & Hs) [->|[->|(t & c & -> & Hc & Hr & Hp & Hq)]] P; subst P.
  - left. split; [reflexivity|]. rewrite app_nil_r. now apply pieces_blank_line.
  - right. left. split; [reflexivity|]. now apply pieces_rbrace_line.
  - right. right. rewrite pieces_stable_line by assumption.
    repeat split.
    + rewrite blank_app. cbn. now rewrite Hc, andb_false_r.
    + intros E. destruct t as [|d [|d' t]]; try discriminate.
      injection E as ->. discriminate Hr.
    + destruct (closes c ctx) eqn:Ec; [right|now left].
      split; [reflexivity|]. intros Hcalm. now apply (closes_calm t c ctx).
Qed.

Lemma join_lf_cons (l : jsstr) (rest : list jsstr) :
  rest <> [] -> join_lf (l :: rest) = l ++ lf :: join_lf rest.
Proof. now destruct rest. Qed.

Lemma squeeze_tail_skip (rest : list jsstr) :
  rest <> [] -> squeeze_tail ([] :: rest) = squeeze_tail rest.
Proof. intros Hr. now rewrite squeeze_tail_cons. Qed.

Lemma squeeze_tail_keep (q : jsstr) (rest : list jsstr) :
  blank q = false -> rest <> [] -> squeeze_tail (q :: rest) = q :: squeeze_tail rest.
Proof. intros Hb Hr. now rewrite squeeze_tail_cons, Hb. Qed.

Lemma second_pass_tail :
  forall qs lines,
    Forall2 indented qs lines -> Forall settled qs ->
    normal_tail qs = true -> calm (last qs []) = true -> qs <> [] ->
    let R := map trim (pieces [] [] (join_lf lines)) in
    squeeze_tail R = qs /\ squeeze_tail ([] :: R) = qs.
Proof.
  intros qs lines HF. induction HF as [|q line qs lines Hi HF IH];
    intros Hs Hn Hc Hne R; [contradiction|]. subst R.
  inversion Hs as [|? ? Hq Hs']; subst.
  destruct HF as [|q2 line2 qs lines Hi2 HF].
  - (* the last line *)
    cbn [join_lf last] in *.
    destruct (line_pieces [] Hi Hq) as [[-> ->]|[[-> _]|(Hb & _ & [->|[_ Hx]])]].
    + now split.
    + discriminate Hc.
    + cbn [squeeze_tail blank forallb]. now split.
    + now specialize (Hx Hc).
  - (* a line followed by others *)
    assert (Hne2 : q2 :: qs <> []) by discriminate.
    rewrite normal_tail_cons in Hn by assumption.
    apply andb_prop in Hn as [Hb Hn]. apply negb_true_iff in Hb.
    rewrite last_cons in Hc by assumption.
    specialize (IH Hs' Hn Hc Hne2). cbn zeta in IH. destruct IH as [IH1 IH2].
    rewrite join_lf_cons by discriminate.
    rewrite pieces_app_lf, map_app.
    set (R := map trim (pieces [] [] (join_lf (line2 :: lines)))) in *.
    assert (HR : R <> []).
    { unfold R. intros E. apply map_eq_nil in E.
      now apply pieces_nonempty in E. }
    destruct (line_pieces (lf :: join_lf (line2 :: lines) ++ []) Hi Hq)
      as [[-> _]|[[-> ->]|(_ & _ & [->|[-> _]])]].
    + discriminate Hb.
    + cbn [app]. rewrite !squeeze_tail_skip by discriminate.
      rewrite squeeze_tail_keep by (reflexivity || discriminate).
      split; f_equal; exact IH2.
    + cbn [app]. rewrite ?squeeze_tail_skip by discriminate.
      rewrite squeeze_tail_keep by assumption. split; f_equal; exact IH1.
    + cbn [app]. rewrite ?squeeze_tail_skip by discriminate.
      rewrite squeeze_tail_keep by (assumption || discriminate).
      split; f_equal; exact IH2.
Qed.

Lemma second_pass (qs lines : list jsstr) :
  Forall2 indented qs lines -> Forall settled qs ->
  normal_tail (tl qs) = true -> calm (last qs []) = true ->
  hd [] qs <> [rbrace] -> qs <> [] ->
  squeeze (map trim (pieces [] [] (join_lf lines))) = qs.
Proof.
  intros HF Hs Hn Hc Hh Hne.
  destruct HF as [|q line qs lines Hi HF]; [contradiction|].
  inversion Hs as [|? ? Hq Hs']; subst. cbn [tl hd] in *.
  destruct HF as [|q2 line2 qs lines Hi2 HF].
  - cbn [join_lf last] in *.
    destruct (line_pieces [] Hi Hq) as [[-> ->]|[[-> _]|(Hb & _ & [->|[_ Hx]])]];
      try reflexivity.
    + discriminate Hc.
    + now specialize (Hx Hc).
  - assert (Hne2 : q2 :: qs <> []) by discriminate.
    rewrite last_cons in Hc by assumption.
    assert (HF2 : Forall2 indented (q2 :: qs) (line2 :: lines)) by now constructor.
    destruct (second_pass_tail HF2 Hs' Hn Hc Hne2) as [T1 T2].
    rewrite join_lf_cons by discriminate.
    rewrite pieces_app_lf, map_app.
    set (R := map trim (pieces [] [] (join_lf (line2 :: lines)))) in *.
    destruct (line_pieces (lf :: join_lf (line2 :: lines) ++ []) Hi Hq)
      as [[-> ->]|[[-> _]|(_ & _ & [->|[-> _]])]].
    + cbn [app squeeze]. f_equal. exact T1.
    + contradiction.
    + cbn [app squeeze]. f_equal. exact T1.
    + cbn [app squeeze]. f_equal. exact T2.
Qed.

(** ** The heuristic formatter applied twice *)

Lemma basicFormat_lines (code : jsstr) :
  basicFormat code =
  join_lf (indent_lines 0 (squeeze (map trim (pieces [] [] code)))).
Proof.
  unfold basicFormat.
  now rewrite split_formatted, indent_lines_trim, map_trim_squeeze.
Qed.

Lemma first_pass_lines (code : jsstr) :
  let qs := squeeze (map trim (pieces [] [] code)) in
  Forall settled qs /\ normal_tail (tl qs) = true /\ calm (last qs []) = true
  /\ hd [] qs <> [rbrace] /\ qs <> [].
Proof.
  intros qs. subst qs.
  pose proof (pieces_nonempty [] code []) as Hne.
  pose proof (pieces_first [] code [] (fun H => H)) as Hfirst.
  pose proof (@pieces_last [] code [] eq_refl) as Hlast.
  pose proof (@pieces_settled [] code [] eq_refl) as Hset.
  destruct (pieces [] [] code) as [|h t]; [contradiction|].
  repeat split.
  - now apply squeeze_Forall.
  - cbn [map squeeze tl]. apply squeeze_tail_normal.
  - rewrite squeeze_last, map_last. now apply calm_trim.
  - cbn [map squeeze hd]. intros E. apply Hfirst. apply trim_In.
    rewrite E. now left.
  - discriminate.
Qed.

Example basicFormat_function :
  basicFormat (js"function f(a,b){return a;}") =
  js"function f(a," ++ lf :: js"b){" ++ lf :: js"  return a;" ++ lf :: js"}" ++ [lf].
Proof. reflexivity. Qed.

(** The formatter proper, applied to its own output, returns it. *)
Lemma basicFormat_idempotent (code : jsstr) :
  basicFormat (basicFormat code) = basicFormat code.
Proof.
  rewrite (basicFormat_lines (basicFormat code)).
  rewrite (basicFormat_lines code) at 1.
  destruct (first_pass_lines code) as (Hs & Hn & Hc & Hh & Hne).
  set (qs := squeeze (map trim (pieces [] [] code))) in *.
  rewrite (@second_pass qs (indent_lines 0 qs)); try assumption.
  - symmetry. apply basicFormat_lines.
  - assert (E : map trim qs = qs).
    { unfold qs. rewrite <- map_trim_squeeze, map_map.
      apply map_ext. apply trim_trim. }
    rewrite <- E at 1. apply indent_lines_indented.
Qed.

(** C8. The heuristic formatter is idempotent: formatting its own output
    changes nothing.  This holds for every input, so in particular for
    well-formatted input without a brace next to a semicolon, and whether
    or not the runtime fails on the way (the input then comes back as it
    is); [beautify] without the library inherits it. *)
Theorem heuristic_format_idempotent (H : Host) (code : jsstr) :
  basicBeautify H (basicBeautify H code) = basicBeautify H code
  /\ forall w,
      isAvailable H w = false ->
      exists out,
        beautify H code w = (Normal out, w)
        /\ beautify H out w = (Normal out, w).
Proof.
  assert (E : basicBeautify H (basicBeautify H code) = basicBeautify H code).
  { unfold basicBeautify, basicBeautify_try.
    destruct (runtime_fault H code) as [e|] eqn:Hf.
    - now rewrite Hf.
    - destruct (runtime_fault H (basicFormat code)); [reflexivity|].
      apply basicFormat_idempotent. }
  split; [exact E|]. intros w Ha.
  exists (basicBeautify H code). unfold beautify, try_catch.
  rewrite Ha. now rewrite E.
Qed.

Lemma heuristic_format_idempotent_witness :
  exists out,
    beautify accepting_host (js"a;b") [] = (Normal out, [])
    /\ beautify accepting_host out [] = (Normal out, []).
Proof.
  exact (proj2 (heuristic_format_idempotent accepting_host (js"a;b")) [] eq_refl).
Defined.

End FormatterFacts.

(** * Further properties of the scanner *)

Module NameFacts.

Import Scanner Spec Samples ScannerFacts NameSpec.

Lemma replace_runs_squash (p : ascii -> bool) (rep : jsstr) :
  forall s,
    replace_runs p 1 rep (run_length p s) s = squash p rep true s
    /\ replace_runs p 1 rep 0 s = squash p rep false s.
Proof.
  induction s as [|c r [IHa IHb]]; [now split|].
  assert (Hb : replace_runs p 1 rep 0 (c :: r) = squash p rep false (c :: r)).
  { cbn [replace_runs run_length squash]. destruct (p c) eqn:Hp.
    - cbn [Nat.leb andb Nat.sub]. rewrite ?Nat.sub_0_r. now rewrite IHa.
    - cbn [Nat.leb andb]. now rewrite IHb. }
  split; [|exact Hb].
  cbn [run_length]. destruct (p c) eqn:Hp.
  - cbn [replace_runs squash]. now rewrite Hp, IHa.
  - rewrite Hb. cbn [squash]. now rewrite Hp.
Qed.

Lemma squash_no_pair (p : ascii -> bool) (u : ascii) :
  p u = true ->
  forall s inside,
    no_pair p (squash p [u] inside s) = true
    /\ (inside = true ->
        match squash p [u] inside s with
        | b :: _ => p b = false
        | [] => True
        end).
Proof.
  intros Hu. induction s as [|c r IH]; intros inside; [now split|].
  cbn [squash]. destruct (p c) eqn:Hp.
  - destruct (IH true) as [IH1 IH2]. specialize (IH2 eq_refl).
    destruct inside; cbn [app].
    + now split.
    + split; [|discriminate]. cbn [no_pair]. rewrite IH1, Hu.
      destruct (squash p [u] true r) as [|b t]; [reflexivity|].
      now rewrite IH2.
  - destruct (IH false) as [IH1 _]. split; [|now intros _].
    cbn [no_pair]. now rewrite Hp, IH1.
Qed.

Lemma squash_fixed (p : ascii -> bool) (u : ascii) :
  (forall c, p c = true -> c = u) ->
  forall s,
    no_pair p s = true ->
    squash p [u] false s = s
    /\ (match s with b :: _ => p b = false | [] => True end ->
        squash p [u] true s = s).
Proof.
  intros Hp. induction s as [|c r IH]; [now split|].
  cbn [no_pair]. intros Hn. apply andb_prop in Hn as [Hc Hr].
  destruct (IH Hr) as [IH1 IH2]. cbn [squash].
  destruct (p c) eqn:Hpc.
  - split; [|discriminate]. cbn [app]. rewrite (Hp c Hpc). f_equal. apply IH2.
    destruct r as [|b t]; [exact I|]. cbn [andb] in Hc.
    now apply negb_true_iff in Hc.
  - split; [|intros _]; now rewrite IH1.
Qed.

Lemma squash_absent (p : ascii -> bool) (rep : jsstr) :
  forall s inside, forallb (fun c => negb (p c)) s = true ->
                   squash p rep inside s = s.
Proof.
  induction s as [|c r IH]; intros inside; [reflexivity|].
  cbn [forallb squash]. intros Hs. apply andb_prop in Hs as [Hc Hr].
  apply negb_true_iff in Hc. now rewrite Hc, IH.
Qed.

Lemma replace_class_absent (p : ascii -> bool) (rep : jsstr) :
  forall s, forallb (fun c => negb (p c)) s = true -> replace_class p rep s = s.
Proof.
  unfold replace_class. induction s as [|c r IH]; [reflexivity|].
  cbn [forallb flat_map]. intros Hs. apply andb_prop in Hs as [Hc Hr].
  apply negb_true_iff in Hc. now rewrite Hc, IH.
Qed.

Lemma no_pair_firstn (p : ascii -> bool) :
  forall s n, no_pair p s = true -> no_pair p (firstn n s) = true.
Proof.
  induction s as [|c r IH]; intros [|n]; try reflexivity.
  cbn [no_pair firstn]. intros Hn. apply andb_prop in Hn as [Hc Hr].
  rewrite (IH n Hr), andb_true_r.
  destruct r as [|b t]; [now destruct n; rewrite andb_false_r|].
  destruct n; cbn [firstn]; [now rewrite andb_false_r|exact Hc].
Qed.

Lemma forallb_weaken (P Q : ascii -> bool) (s : jsstr) :
  (forall c, P c = true -> Q c = true) -> forallb P s = true -> forallb Q s = true.
Proof.
  intros HPQ. rewrite !forallb_forall. auto.
Qed.

Lemma sanitized_chars (filename : jsstr) :
  forallb name_char (sanitizeFilename filename) = true.
Proof.
  unfold sanitizeFilename, substring0. apply forallb_firstn.
  apply replace_runs_chars; [reflexivity|]. intros c Hc _.
  assert (H2 : forallb name_char
                 (replace_runs is_space 1 (js"_") 0
                    (replace_class
                       (fun c => negb (is_word c || is_space c
                                       || Ascii.eqb c "."%char || Ascii.eqb c "-"%char))
                       (js"_") filename)) = true).
  { apply replace_runs_chars; [reflexivity|]. intros d Hd Hs.
    assert (H1 : forallb (fun c => is_word c || is_space c
                                   || Ascii.eqb c "."%char || Ascii.eqb c "-"%char)
                   (replace_class
                      (fun c => negb (is_word c || is_space c
                                      || Ascii.eqb c "."%char || Ascii.eqb c "-"%char))
                      (js"_") filename) = true).
    { apply replace_class_chars; [reflexivity|].
      intros x Hx. now apply negb_false_iff in Hx. }
    rewrite forallb_forall in H1. specialize (H1 d Hd). cbn beta in H1.
    unfold name_char. now rewrite Hs, orb_false_r in H1. }
  rewrite forallb_forall in H2. now apply H2.
Qed.

Lemma sanitized_no_pair (filename : jsstr) :
  no_pair is_underscore (sanitizeFilename filename) = true.
Proof.
  unfold sanitizeFilename, substring0. apply no_pair_firstn.
  rewrite (proj2 (replace_runs_squash _ _ _)).
  now apply (@squash_no_pair is_underscore "_"%char eq_refl).
Qed.

Lemma name_char_not_space (c : ascii) : name_char c = true -> is_space c = false.
Proof.
  destruct c as [[] [] [] [] [] [] [] []]; vm_compute; intros E;
    first [reflexivity|discriminate E].
Qed.

(** X1. A sanitized name is made of word characters, dots and hyphens
    only, is at most 200 characters long and has no two underscores in a
    row; it is empty only when the name was.  So every non-empty name comes
    out matching [^[\w.-]{1,200}$]. *)
Theorem sanitizeFilename_shape (filename : jsstr) :
  forallb name_char (sanitizeFilename filename) = true
  /\ length (sanitizeFilename filename) <= 200
  /\ no_pair is_underscore (sanitizeFilename filename) = true
  /\ (sanitizeFilename filename = [] <-> filename = [])
  /\ (filename <> [] -> safe_name (sanitizeFilename filename) = true).
Proof.
  repeat split.
  - apply sanitized_chars.
  - unfold sanitizeFilename, substring0. rewrite length_firstn. apply Nat.le_min_l.
  - apply sanitized_no_pair.
  - intros E. destruct filename as [|c r]; [reflexivity|].
    assert (Hs : safe_name (sanitizeFilename (c :: r)) = true)
      by now apply sanitizeFilename_safe.
    rewrite E in Hs. discriminate Hs.
  - now intros ->.
  - apply sanitizeFilename_safe.
Qed.

Lemma sanitizeFilename_shape_witness :
  safe_name (sanitizeFilename (js"my file (1).html")) = true.
Proof.
  apply (proj2 (proj2 (proj2 (proj2 (sanitizeFilename_shape (js"my file (1).html")))))).
  discriminate.
Defined.

(** X2. Sanitizing is idempotent: a sanitized name is left as it is. *)
Theorem sanitizeFilename_idempotent (filename : jsstr) :
  sanitizeFilename (sanitizeFilename filename) = sanitizeFilename filename.
Proof.
  pose proof (sanitized_chars filename) as Hc.
  pose proof (sanitized_no_pair filename) as Hn.
  assert (Hl : length (sanitizeFilename filename) <= 200).
  { unfold sanitizeFilename, substring0. rewrite length_firstn. apply Nat.le_min_l. }
  set (y := sanitizeFilename filename) in *.
  unfold sanitizeFilename at 1, substring0.
  rewrite replace_class_absent.
  2:{ apply (@forallb_weaken name_char); [|exact Hc].
      intros c Hx. rewrite negb_involutive. unfold name_char in Hx.
      destruct (is_word c), (Ascii.eqb c "."%char), (Ascii.eqb c "-"%char);
        try discriminate; now rewrite ?orb_true_r. }
  rewrite (proj2 (replace_runs_squash is_space _ y)), squash_absent.
  2:{ apply (@forallb_weaken name_char); [|exact Hc].
      intros c Hx. now rewrite (name_char_not_space c Hx). }
  rewrite (proj2 (replace_runs_squash _ _ y)).
  change (js"_") with ["_"%char].
  change (fun c : ascii => Ascii.eqb c "_"%char) with is_underscore.
  rewrite (proj1 (@squash_fixed is_underscore "_"%char
                                (fun c E => proj1 (Ascii.eqb_eq _ _) E) y Hn)).
  now apply firstn_all2.
Qed.

End NameFacts.

Module ScanFacts.

Import Scanner Spec Samples ScannerFacts NameSpec NameFacts ScanSpec.

Lemma split_on_aux_nonempty (sep : ascii) :
  forall s cur, split_on_aux sep cur s <> [].
Proof.
  induction s as [|c r IH]; intros cur; cbn [split_on_aux]; [discriminate|].
  destruct (Ascii.eqb c sep); [discriminate|apply IH].
Qed.

Lemma split_on_aux_last (sep : ascii) :
  forall s cur,
    ~ In sep cur ->
    exists pre,
      rev cur ++ s = pre ++ last (split_on_aux sep cur s) []
      /\ ~ In sep (last (split_on_aux sep cur s) [])
      /\ (pre = [] \/ exists p, pre = p ++ [sep]).
Proof.
  induction s as [|c r IH]; intros cur Hn; cbn [split_on_aux].
  - exists []. cbn [last app]. rewrite app_nil_r.
    split; [reflexivity|]. split; [|now left].
    intros Hi. apply Hn. exact (proj2 (in_rev cur sep) Hi).
  - destruct (Ascii.eqb_spec c sep) as [->|Hc].
    + destruct (IH [] (fun H => H)) as (pre & E & Hl & Hp).
      rewrite FormatterFacts.last_cons by apply split_on_aux_nonempty.
      cbn [rev app] in E. exists (rev cur ++ sep :: pre).
      repeat split; try assumption.
      * rewrite <- app_assoc. cbn [app]. do 2 f_equal. exact E.
      * right. destruct Hp as [->|(p & ->)].
        -- now exists (rev cur).
        -- exists (rev cur ++ sep :: p). now rewrite <- app_assoc.
    + destruct (IH (c :: cur)) as (pre & E & Hl & Hp).
      { intros [->|Hi]; [now apply Hc|contradiction]. }
      exists pre. cbn [rev] in E. rewrite <- app_assoc in E.
      now repeat split.
Qed.

(** X3. The file name taken from a URL is never empty.  It is
    [unknown_file] when the URL does not parse; otherwise it is the text
    after the last [/] of the path, and the host name followed by [_index]
    when that text is empty. *)
Theorem getFilenameFromUrl_cases (parseURL : jsstr -> option URL) (url : jsstr) :
  getFilenameFromUrl parseURL url <> []
  /\ (parseURL url = None -> getFilenameFromUrl parseURL url = js"unknown_file")
  /\ (forall u,
        parseURL url = Some u ->
        exists pre seg,
          pathname u = pre ++ seg
          /\ ~ In "/"%char seg
          /\ (pre = [] \/ exists p, pre = p ++ ["/"%char])
          /\ getFilenameFromUrl parseURL url =
             match seg with
             | [] => hostname u ++ js"_index"
             | _ => seg
             end).
Proof.
  unfold getFilenameFromUrl. destruct (parseURL url) as [u|] eqn:E.
  - destruct (@split_on_aux_last "/"%char (pathname u) [] (fun H => H))
      as (pre & Ep & Hl & Hp).
    fold (split_on "/"%char (pathname u)) in *.
    repeat split; try discriminate.
    + destruct (last (split_on "/"%char (pathname u)) []); [|discriminate].
      intros E0. apply app_eq_nil in E0 as [_ E0]. discriminate E0.
    + intros u' Eu. injection Eu as <-.
      exists pre, (last (split_on "/"%char (pathname u)) []).
      now repeat split.
  - repeat split; discriminate.
Qed.

Lemma getFilenameFromUrl_cases_witness :
  exists pre seg,
    js"/npm/vue@3" = pre ++ seg
    /\ ~ In "/"%char seg
    /\ (pre = [] \/ exists p, pre = p ++ ["/"%char])
    /\ getFilenameFromUrl plainURL (js"https://cdn.test/npm/vue@3") =
       match seg with
       | [] => js"cdn.test" ++ js"_index"
       | _ => seg
       end.
Proof.
  exact (proj2 (proj2 (getFilenameFromUrl_cases plainURL (js"https://cdn.test/npm/vue@3")))
               {| pathname := js"/npm/vue@3"; hostname := js"cdn.test" |} eq_refl).
Defined.

Lemma squash_app_absent (p : ascii -> bool) (rep b : jsstr) :
  forallb (fun c => negb (p c)) b = true ->
  forall a inside, squash p rep inside (a ++ b) = squash p rep inside a ++ b.
Proof.
  intros Hb. induction a as [|c a IH]; intros inside; cbn [app squash].
  - now apply squash_absent.
  - destruct (p c); rewrite IH; [now rewrite app_assoc|reflexivity].
Qed.

Lemma squash_length (p : ascii -> bool) (u : ascii) :
  forall s inside, length (squash p [u] inside s) <= length s.
Proof.
  induction s as [|c r IH]; intros inside; cbn [squash length]; [lia|].
  pose proof (IH true). pose proof (IH false).
  destruct (p c); [destruct inside|]; cbn [app length]; lia.
Qed.

Lemma replace_class_length (p : ascii -> bool) (u : ascii) (s : jsstr) :
  length (replace_class p [u] s) = length s.
Proof.
  unfold replace_class. induction s as [|c r IH]; [reflexivity|].
  cbn [flat_map]. rewrite length_app, IH. now destruct (p c).
Qed.

(** Sanitizing a name that ends in [.html] and is at most 200 characters
    long keeps the extension. *)
Lemma sanitizeFilename_keeps_html (name : jsstr) :
  length (name ++ js".html") <= 200 ->
  endsWith (js".html") (sanitizeFilename (name ++ js".html")) = true.
Proof.
  intros Hl. unfold sanitizeFilename, substring0.
  unfold replace_class at 1. rewrite flat_map_app.
  fold (replace_class
          (fun c => negb (is_word c || is_space c
                          || Ascii.eqb c "."%char || Ascii.eqb c "-"%char))
          (js"_") name).
  set (s1 := replace_class _ _ name).
  change (flat_map _ (js".html")) with (js".html").
  rewrite (proj2 (replace_runs_squash is_space _ _)).
  rewrite squash_app_absent by reflexivity.
  set (s2 := squash is_space _ false s1).
  rewrite (proj2 (replace_runs_squash _ _ _)).
  rewrite squash_app_absent by reflexivity.
  set (s3 := squash _ _ false s2).
  assert (H3 : length s3 <= length name).
  { unfold s3, s2, s1. change (js"_") with ["_"%char].
    etransitivity; [apply squash_length|].
    etransitivity; [apply squash_length|].
    now rewrite replace_class_length. }
  rewrite firstn_all2; [apply endsWith_app|].
  rewrite length_app in *. lia.
Qed.

(** X4. The descriptor of the page carries the serialised document as
    content and the page URL; its name always matches [^[\w.-]{1,200}$],
    and ends in [.html] whenever the name taken from the URL is at most 195
    characters long. *)
Theorem page_descriptor (parseURL : jsstr -> option URL) (page : Page) :
  let a := getCurrentPageHtml parseURL page in
  asset_content a = Some (outerHTML page)
  /\ asset_url a = Some (location_href page)
  /\ safe_name (asset_filename a) = true
  /\ (length (getFilenameFromUrl parseURL (location_href page)) <= 195 ->
      endsWith (js".html") (asset_filename a) = true).
Proof.
  cbn zeta. repeat split.
  - cbn [getCurrentPageHtml asset_filename]. apply sanitizeFilename_safe.
    intros E. apply app_eq_nil in E as [_ E]. discriminate E.
  - intros Hl. cbn [getCurrentPageHtml asset_filename].
    apply sanitizeFilename_keeps_html. rewrite length_app. cbn [length]. 
    change (length (js".html")) with 5. lia.
Qed.

Lemma page_descriptor_witness :
  endsWith (js".html") (asset_filename (getCurrentPageHtml plainURL page_plain)) = true.
Proof.
  apply (proj2 (proj2 (proj2 (page_descriptor plainURL page_plain)))).
  vm_compute. lia.
Defined.

Lemma http_nonempty (src : jsstr) : is_http_or_relative src = true -> truthy (Some src) = true.
Proof. now destruct src. Qed.



Lemma nonblank_nonempty (text : jsstr) : nonblank text = true -> truthy (Some text) = true.
Proof. destruct text; [discriminate|reflexivity]. Qed.

(** X7. On a page whose serialised document or URL is not empty, every
    descriptor the scan returns has content or a URL: none of them can take
    the branch of [downloadFile] that throws for a missing origin. *)
Theorem scanned_assets_have_origin (parseURL : jsstr -> option URL) (page : Page)
        (options : ScanOptions) :
  outerHTML page <> [] \/ location_href page <> [] ->
  Forall (fun a => has_origin a = true) (scanAllAssets parseURL page options).
Proof.
  intros Hp.
  assert (Hsrc : forall src, is_http_or_relative src = true -> truthy (Some src) = true)
    by apply http_nonempty.
  unfold scanAllAssets. cbn [app].
  assert (Hpage : has_origin (getCurrentPageHtml parseURL page) = true).
  { unfold has_origin. cbn [getCurrentPageHtml asset_content asset_url truthy].
    destruct (outerHTML page); [|reflexivity].
    destruct (location_href page); [|reflexivity]. now destruct Hp. }
  assert (Hext : Forall (fun a => has_origin a = true)
                        (getExternalScripts parseURL page)).
  { unfold getExternalScripts. rewrite forEach_push_collect. cbn [app].
    apply collect_Forall. intros script index a.
    destruct (is_http_or_relative (script_src script)) eqn:Hs; [|discriminate].
    intros E. injection E as <-. unfold has_origin. cbn [asset_content asset_url].
    now rewrite (Hsrc _ Hs). }
  assert (Hinl : Forall (fun a => has_origin a = true) (getInlineScripts page)).
  { rewrite getInlineScripts_collect.
    apply collect_Forall. intros script index a.
    destruct (nonblank (script_textContent script)) eqn:Hn; [|discriminate].
    intros E. injection E as <-. unfold has_origin. cbn [inline_descriptor asset_content].
    now rewrite (nonblank_nonempty _ Hn). }
  assert (Hfrm : Forall (fun a => has_origin a = true)
                        (getIframeHtml parseURL page)).
  { unfold getIframeHtml. rewrite forEach_push_collect. cbn [app].
    apply collect_Forall. intros iframe index a.
    destruct (is_http_or_relative (iframe_src iframe)) eqn:Hs; [|discriminate].
    intros E. injection E as <-. unfold has_origin. cbn [asset_content asset_url].
    now rewrite (Hsrc _ Hs). }
  destruct (includeInline options); rewrite <- ?app_assoc; cbn [app];
    (constructor; [exact Hpage|]); repeat (apply Forall_app; split); assumption.
Qed.

Lemma scanned_assets_have_origin_witness :
  Forall (fun a => has_origin a = true)
         (scanAllAssets plainURL page_cdn {| includeInline := true |}).
Proof.
  apply scanned_assets_have_origin. left. discriminate.
Defined.

End ScanFacts.

(** * Further properties of the download manager *)

Module TraceFacts.

Import Background Spec Samples BackgroundFacts TraceSpec ContentListener MoreSamples.

Lemma count_app (kind : Event -> bool) (a b : list Event) :
  count kind (a ++ b) = count kind a + count kind b.
Proof. unfold count. now rewrite filter_app, length_app. Qed.

Lemma beautify_world (H : Host) (code : jsstr) (w : World) :
  beautify H code w = (Normal (beautified H code w), w).
Proof.
  unfold beautified, beautify, try_catch, ret.
  destruct (isAvailable H w); [|reflexivity].
  destruct (js_beautify H w) as [engine|]; [|reflexivity].
  now destruct (engine code).
Qed.

Lemma resolve_url_content (H : Host) (asset : Asset) (options : DownloadOptions)
      (content : jsstr) (w : World) :
  asset_content asset = Some content -> content <> [] ->
  resolve_url H asset options w =
  createDownloadUrl H (prepared H asset options content w)
                    (getMimeType (asset_type asset)) w.
Proof.
  intros Hc Hne. unfold resolve_url, prepared. rewrite Hc.
  destruct content as [|c content]; [contradiction|].
  destruct (prettifyJs options && includes (js"js") (asset_type asset)).
  - unfold bind. now rewrite beautify_world.
  - reflexivity.
Qed.

Lemma has_content (asset : Asset) :
  truthy (asset_content asset) = true ->
  exists content, asset_content asset = Some content /\ content <> [].
Proof.
  destruct (asset_content asset) as [[|c content]|]; try discriminate.
  intros _. now exists (c :: content).
Qed.

Section OneAsset.

Variable H : Host.

(** X8. When the Blob URL cannot be created, the text travels as a data
    URL; an accepted download then schedules the check of the download path
    and nothing else: there is no handle to release.  When the data URL
    cannot be built either, the result is the failure record with the
    message of that last error, and the host is never asked to download. *)
Theorem blob_failure_falls_back_to_data_url
        (asset : Asset) (options : DownloadOptions) (content : jsstr) (w : World)
        (e : JsError) :
  asset_content asset = Some content -> content <> [] ->
  let text := prepared H asset options content w in
  let mime := getMimeType (asset_type asset) in
  createObjectURL H w text mime = Throw e ->
  (forall base64 id,
      base64_utf8 H text = Normal base64 ->
      downloads_download H w (request_for asset (data_url mime base64)) = Normal id ->
      downloadFile H asset options w =
      (Normal (succeeded id asset),
       w ++ [DownloadCalled (request_for asset (data_url mime base64));
             TimeoutSet (CheckDownloadPath id) 1000]))
  /\ (forall e2,
         base64_utf8 H text = Throw e2 ->
         downloadFile H asset options w = (Normal (failure e2 asset), w)).
Proof.
  intros Hc Hne text mime Hb.
  assert (Er : resolve_url H asset options w =
               match base64_utf8 H text with
               | Normal base64 => (Normal (data_url mime base64), w)
               | Throw e2 => (Throw e2, w)
               end).
  { rewrite (resolve_url_content H asset options w Hc Hne).
    fold text mime. unfold createDownloadUrl, try_catch. now rewrite Hb. }
  split.
  - intros base64 id E64 Hd. rewrite E64 in Er.
    unfold downloadFile, try_download. unfold_monad. rewrite Er.
    fold (request_for asset (data_url mime base64)). rewrite Hd.
    change (startsWith (js"blob:") (data_url mime base64)) with false.
    cbn beta iota. now rewrite <- !app_assoc.
  - intros e2 E64. rewrite E64 in Er.
    unfold downloadFile, try_download. unfold_monad. now rewrite Er.
Qed.

(** X9. For an asset with content, a Blob URL the host hands out and a
    download the host accepts, [downloadFile] makes exactly these calls, in
    this order: the creation of the URL, the download, the release of the
    URL 5000 ms ahead and the check of the path 1000 ms ahead.  No fetch is
    made, even when the asset also has a URL. *)
Theorem content_asset_calls
        (asset : Asset) (options : DownloadOptions) (content url : jsstr)
        (w : World) (id : nat) :
  asset_content asset = Some content -> content <> [] ->
  let text := prepared H asset options content w in
  let mime := getMimeType (asset_type asset) in
  createObjectURL H w text mime = Normal url ->
  startsWith (js"blob:") url = true ->
  downloads_download H (w ++ [ObjectURLCreated text mime url])
                     (request_for asset url) = Normal id ->
  downloadFile H asset options w =
  (Normal (succeeded id asset),
   w ++ [ObjectURLCreated text mime url;
         DownloadCalled (request_for asset url);
         TimeoutSet (RevokeObjectURL url) 5000;
         TimeoutSet (CheckDownloadPath id) 1000]).
Proof.
  intros Hc Hne text mime Hb Hs Hd.
  unfold downloadFile, try_download. unfold_monad.
  rewrite (resolve_url_content H asset options w Hc Hne).
  fold text mime. unfold createDownloadUrl, try_catch. rewrite Hb.
  fold (request_for asset url). rewrite Hd, Hs.
  now rewrite <- !app_assoc.
Qed.

End OneAsset.

Section Traces.

Variable H : Host.

Ltac trace_facts :=
  unfold count; cbn [filter length app is_pause is_download is_release
                     is_fetch is_object_url];
  repeat split; try lia; try reflexivity;
  try (intros [?|[?|?]]; congruence); try (intros; congruence).

Ltac trace_done :=
  first [ exists []; split; [now rewrite app_nil_r|trace_facts]
        | eexists; split; [rewrite <- ?app_assoc; reflexivity|trace_facts] ].

Lemma resolve_url_trace (asset : Asset) (options : DownloadOptions) (w : World) :
  exists evs,
    snd (resolve_url H asset options w) = w ++ evs
    /\ count is_pause evs = 0
    /\ count is_download evs = 0
    /\ count is_release evs = 0
    /\ count is_fetch evs <= 1
    /\ count is_object_url evs <= 1
    /\ (prettifyJs options = false \/ truthy (asset_content asset) = true
        \/ includes (js"js") (asset_type asset) = false ->
        count is_fetch evs = 0).
Proof.
  unfold resolve_url.
  destruct (asset_content asset) as [[|c content]|] eqn:Hc; cbn [truthy].
  2:{ destruct (prettifyJs options) eqn:Hp;
        destruct (includes (js"js") (asset_type asset)) eqn:Hj; cbn [andb];
          unfold bind, createDownloadUrl, try_catch, ret;
          rewrite ?beautify_world;
          repeat match goal with
                 | |- context [createObjectURL H ?a ?b ?c] =>
                   destruct (createObjectURL H a b c)
                 | |- context [base64_utf8 H ?a] => destruct (base64_utf8 H a)
                 end; cbn [snd]; trace_done. }
  all: destruct (asset_url asset) as [[|d url]|] eqn:Hu;
    try (unfold throw; cbn [snd]; trace_done).
  all: destruct (prettifyJs options) eqn:Hp;
    destruct (includes (js"js") (asset_type asset)) eqn:Hj; cbn [andb];
      try (unfold ret; cbn [snd]; trace_done).
  all: unfold bind, fetchExternalContent, createDownloadUrl, try_catch, ret;
    destruct (fetch H w (d :: url)) as [e|[|] status statusText [[|b body]|e]];
    cbn [negb snd]; rewrite ?beautify_world;
      repeat match goal with
             | |- context [createObjectURL H ?a ?b ?c] =>
               destruct (createObjectURL H a b c)
             | |- context [base64_utf8 H ?a] => destruct (base64_utf8 H a)
             end; cbn [snd]; trace_done.
Qed.

Lemma count_cons (kind : Event -> bool) (ev : Event) (l : list Event) :
  count kind (ev :: l) = (if kind ev then 1 else 0) + count kind l.
Proof. unfold count. cbn [filter]. now destruct (kind ev). Qed.

Lemma count_nil (kind : Event -> bool) : count kind [] = 0.
Proof. reflexivity. Qed.

Ltac count_events :=
  rewrite ?count_app, ?count_cons, ?count_nil;
  cbn [pause is_pause is_download is_release is_fetch is_object_url].

Lemma outcome_trace (asset : Asset) (options : DownloadOptions) (w : World) :
  exists evs,
    snd (outcome H asset options w) = w ++ evs
    /\ count is_pause evs = 0
    /\ count is_download evs <= 1
    /\ count is_fetch evs <= 1
    /\ count is_object_url evs <= 1
    /\ (prettifyJs options = false \/ truthy (asset_content asset) = true
        \/ includes (js"js") (asset_type asset) = false ->
        count is_fetch evs = 0)
    /\ (if success (fst (outcome H asset options w))
        then count is_download evs = 1 /\ count is_release evs <= 1
        else count is_release evs = 0).
Proof.
  destruct (resolve_url_trace asset options w)
    as (evs & Ew & Hp & Hd & Hr & Hf & Ho & Hc).
  unfold outcome, try_download. unfold_monad.
  destruct (resolve_url H asset options w) as [[url|e] w0]; cbn [snd] in Ew; subst w0.
  - destruct (downloads_download H (w ++ evs) _) as [id|e].
    + destruct (startsWith (js"blob:") url); cbn [fst snd success];
        (eexists; split; [rewrite <- !app_assoc; reflexivity|]);
        count_events; repeat split; try lia;
          intros Hx; specialize (Hc Hx); lia.
    + cbn [fst snd success failure]. eexists.
      split; [rewrite <- !app_assoc; reflexivity|].
      count_events. repeat split; try lia.
      intros Hx. specialize (Hc Hx). lia.
  - cbn [fst snd success failure]. exists evs. repeat split; try lia. exact Hc.
Qed.

Lemma batch_trace (options : DownloadOptions) :
  forall (assets : list Asset) (w : World),
    exists evs,
      snd (batch H options assets w) = w ++ evs
      /\ count is_pause evs = length assets
      /\ count is_download evs <= length assets
      /\ count is_fetch evs <= length assets
      /\ count is_object_url evs <= length assets
      /\ (prettifyJs options = false \/
          Forall (fun a => truthy (asset_content a) = true
                           \/ includes (js"js") (asset_type a) = false) assets ->
          count is_fetch evs = 0)
      /\ length (filter (fun r => success r) (fst (batch H options assets w)))
         <= count is_download evs
      /\ count is_release evs
         <= length (filter (fun r => success r) (fst (batch H options assets w))).
Proof.
  induction assets as [|asset rest IH]; intros w; cbn [batch].
  - exists []. rewrite app_nil_r. cbn. repeat split; lia.
  - destruct (outcome_trace asset options w)
      as (ev1 & E1 & Hp1 & Hd1 & Hf1 & Ho1 & Hc1 & Hs1).
    destruct (outcome H asset options w) as [result w1]. cbn [fst snd] in *.
    subst w1.
    destruct (IH ((w ++ ev1) ++ [pause]))
      as (ev2 & E2 & Hp2 & Hd2 & Hf2 & Ho2 & Hc2 & Hs2 & Hr2).
    destruct (batch H options rest ((w ++ ev1) ++ [pause])) as [results w2].
    cbn [fst snd] in *. subst w2.
    exists (ev1 ++ pause :: ev2). split; [now rewrite <- !app_assoc|].
    count_events.
    assert (Hc : prettifyJs options = false \/
                 Forall (fun a => truthy (asset_content a) = true
                                  \/ includes (js"js") (asset_type a) = false)
                        (asset :: rest) ->
                 count is_fetch ev1 = 0 /\ count is_fetch ev2 = 0).
    { intros [Hx|Hx].
      - split; [apply Hc1|apply Hc2]; now left.
      - inversion Hx as [|? ? Ha Hrest]; subst.
        split; [apply Hc1; now right|apply Hc2; now right]. }
    cbn [filter]. destruct (success result); cbn [length].
    + destruct Hs1 as [Hs1 Hs1']. repeat split; try lia.
      intros Hx. destruct (Hc Hx). lia.
    + repeat split; try lia. intros Hx. destruct (Hc Hx). lia.
Qed.

End Traces.

Lemma blob_failure_falls_back_to_data_url_witness :
  let text := prepared no_blob_host inline_asset beautify_on (js"x=1;") [] in
  let mime := getMimeType (asset_type inline_asset) in
  (forall base64 id,
      base64_utf8 no_blob_host text = Normal base64 ->
      downloads_download no_blob_host [] (request_for inline_asset (data_url mime base64))
      = Normal id ->
      downloadFile no_blob_host inline_asset beautify_on [] =
      (Normal (succeeded id inline_asset),
       [] ++ [DownloadCalled (request_for inline_asset (data_url mime base64));
              TimeoutSet (CheckDownloadPath id) 1000]))
  /\ (forall e2,
         base64_utf8 no_blob_host text = Throw e2 ->
         downloadFile no_blob_host inline_asset beautify_on [] =
         (Normal (failure e2 inline_asset), [])).
Proof.
  apply (@blob_failure_falls_back_to_data_url
           no_blob_host inline_asset beautify_on (js"x=1;") []
           (Error (js"Blob is not defined"))).
  - reflexivity.
  - discriminate.
  - reflexivity.
Defined.

Lemma content_asset_calls_witness :
  let text := prepared accepting_host inline_asset beautify_on (js"x=1;") [] in
  let mime := getMimeType (asset_type inline_asset) in
  downloadFile accepting_host inline_asset beautify_on [] =
  (Normal (succeeded 1 inline_asset),
   [] ++ [ObjectURLCreated text mime (js"blob:extension/0");
          DownloadCalled (request_for inline_asset (js"blob:extension/0"));
          TimeoutSet (RevokeObjectURL (js"blob:extension/0")) 5000;
          TimeoutSet (CheckDownloadPath 1) 1000]).
Proof.
  apply (@content_asset_calls accepting_host inline_asset beautify_on
                              (js"x=1;") (js"blob:extension/0") [] 1).
  - reflexivity.
  - discriminate.
  - reflexivity.
  - reflexivity.
  - reflexivity.
Defined.

Section Batches.

Variable H : Host.
Variable options : DownloadOptions.

(** X10. A batch makes one pause of 200 ms per descriptor and at most one
    download call, one fetch and one Blob URL per descriptor; every result
    with [success] stands for a download call, and every scheduled release
    of a URL for a result with [success]. *)
Theorem batch_calls (assets : list Asset) (w : World) :
  exists results evs,
    downloadFiles H assets options w = (Normal results, w ++ evs)
    /\ count is_pause evs = length assets
    /\ count is_download evs <= length assets
    /\ count is_fetch evs <= length assets
    /\ count is_object_url evs <= length assets
    /\ length (filter (fun r => success r) results) <= count is_download evs
    /\ count is_release evs <= length (filter (fun r => success r) results).
Proof.
  destruct (batch_trace H options assets w)
    as (evs & E & Hp & Hd & Hf & Ho & _ & Hs & Hr).
  exists (fst (batch H options assets w)), evs.
  rewrite downloadFiles_batch, E. now repeat split.
Qed.

(** X11. No fetch is made when formatting is off, nor for descriptors
    that have content or whose type does not name a script: a batch of such
    descriptors never touches the network by itself. *)
Theorem no_needless_fetch (assets : list Asset) (w : World) :
  prettifyJs options = false
  \/ Forall (fun a => truthy (asset_content a) = true
                      \/ includes (js"js") (asset_type a) = false) assets ->
  exists results evs,
    downloadFiles H assets options w = (Normal results, w ++ evs)
    /\ count is_fetch evs = 0.
Proof.
  intros Hc.
  destruct (batch_trace H options assets w)
    as (evs & E & _ & _ & _ & _ & Hf & _).
  exists (fst (batch H options assets w)), evs.
  rewrite downloadFiles_batch, E. split; [reflexivity|now apply Hf].
Qed.

End Batches.

Lemma no_needless_fetch_witness :
  exists results evs,
    downloadFiles accepting_host [external_asset; inline_asset] beautify_off []
    = (Normal results, [] ++ evs)
    /\ count is_fetch evs = 0.
Proof.
  apply no_needless_fetch. now left.
Defined.

Section Resolution.

Variable H : Host.

(** X12. A fetch that answers with an empty body is treated like a failed
    one: the reference itself is downloaded and nothing is formatted. *)
Theorem empty_body_downloads_reference
        (asset : Asset) (url : jsstr) (w : World) (status : nat) (statusText : jsstr) :
  reference_script asset url ->
  fetch H w url = FetchResponse true status statusText (Normal []) ->
  resolve_url H asset beautify_on w = (Normal url, w ++ [Fetched url])
  /\ downloadFile H asset beautify_on w =
     downloadFile H asset beautify_off (w ++ [Fetched url]).
Proof.
  intros Hr Hf.
  assert (E1 : resolve_url H asset beautify_on w = (Normal url, w ++ [Fetched url])).
  { destruct Hr as (Hc & Hu & Ht & Hj). unfold resolve_url.
    destruct url as [|c url]; [discriminate|].
    destruct (asset_content asset) as [[|d content]|]; try discriminate;
      rewrite Hu, Hj; cbn [beautify_on prettifyJs andb];
        unfold bind, fetchExternalContent, try_catch; now rewrite Hf. }
  split; [exact E1|].
  unfold downloadFile, try_download, try_catch, bind, beautify_off.
  now rewrite E1, (resolve_url_direct H (w ++ [Fetched url]) Hr).
Qed.

(** X13. An asset whose type does not contain [js] is handled the same
    with formatting on and off: it is never fetched for formatting and
    never passed to the formatter. *)
Theorem non_script_never_formatted (asset : Asset) (options : DownloadOptions)
        (w : World) :
  includes (js"js") (asset_type asset) = false ->
  downloadFile H asset options w = downloadFile H asset beautify_off w.
Proof.
  intros Hj. unfold downloadFile, try_download, try_catch, bind.
  assert (E : resolve_url H asset options w = resolve_url H asset beautify_off w).
  { unfold resolve_url. rewrite Hj, andb_false_r. reflexivity. }
  now rewrite E.
Qed.

(** X14. The [fetchContent] action always answers with [success: true]:
    the content is the body when the fetch is answered with an [ok] status
    and a readable body, and [null] otherwise; the failure answer is never
    sent.  Exactly one fetch is made. *)
Theorem fetchContent_always_succeeds (url : jsstr) (w : World) :
  onFetchContent H url w =
  (ContentReply (fetched_body (fetch H w url)), w ++ [Fetched url]).
Proof.
  unfold onFetchContent, fetchFileContent, try_catch, ret, fetched_body.
  destruct (fetch H w url) as [e|[|] status statusText [body|e]]; reflexivity.
Qed.

(** X15. The [beautifyJs] action always answers with formatted code and
    never with the failure answer; without the library the code is what the
    heuristic formatter returns. *)
Theorem beautifyJs_always_succeeds (code : jsstr) (w : World) :
  onBeautifyJs H code w = (BeautifyResponse (beautified H code w), w)
  /\ (isAvailable H w = false -> beautified H code w = basicBeautify H code).
Proof.
  unfold onBeautifyJs. rewrite beautify_world. split; [reflexivity|].
  intros Ha. unfold beautified, beautify, try_catch. now rewrite Ha.
Qed.

End Resolution.

Lemma empty_body_downloads_reference_witness :
  resolve_url no_blob_host external_asset beautify_on []
  = (Normal (js"https://x.test/a.js"), [] ++ [Fetched (js"https://x.test/a.js")])
  /\ downloadFile no_blob_host external_asset beautify_on [] =
     downloadFile no_blob_host external_asset beautify_off
                  ([] ++ [Fetched (js"https://x.test/a.js")]).
Proof.
  apply (@empty_body_downloads_reference no_blob_host external_asset
           (js"https://x.test/a.js") [] 200 (js"OK")).
  - now repeat split.
  - reflexivity.
Defined.

Lemma non_script_never_formatted_witness :
  downloadFile accepting_host html_asset beautify_on [] =
  downloadFile accepting_host html_asset beautify_off [].
Proof.
  apply non_script_never_formatted. reflexivity.
Defined.

Lemma beautifyJs_always_succeeds_witness :
  beautified accepting_host (js"a;b") [] = basicBeautify accepting_host (js"a;b").
Proof.
  apply (proj2 (beautifyJs_always_succeeds accepting_host (js"a;b") [])).
  reflexivity.
Defined.

End TraceFacts.

Module CallFacts.

Import Background Spec Samples BackgroundFacts TraceSpec CallSpec.

Section Calls.

Variable H : Host.

Ltac calls_done :=
  first [ exists []; split; [now rewrite app_nil_r|constructor]
        | eexists; split;
          [rewrite <- ?app_assoc; reflexivity
          |repeat (apply Forall_cons; [cbn [event_of]; first [assumption|reflexivity]|]);
           apply Forall_nil] ].

Lemma resolve_url_calls (asset : Asset) (options : DownloadOptions) (w : World) :
  exists evs,
    snd (resolve_url H asset options w) = w ++ evs
    /\ Forall (event_of asset) evs.
Proof.
  unfold resolve_url.
  destruct (asset_content asset) as [[|c content]|] eqn:Hc.
  2:{ destruct (prettifyJs options && includes (js"js") (asset_type asset));
        unfold bind, createDownloadUrl, try_catch, ret;
        rewrite ?TraceFacts.beautify_world;
        repeat match goal with
               | |- context [createObjectURL H ?a ?b ?c] =>
                 destruct (createObjectURL H a b c)
               | |- context [base64_utf8 H ?a] => destruct (base64_utf8 H a)
               end; cbn [snd]; calls_done. }
  all: destruct (asset_url asset) as [[|d url]|] eqn:Hu;
    try (unfold throw; cbn [snd]; calls_done).
  all: destruct (prettifyJs options && includes (js"js") (asset_type asset));
    try (unfold ret; cbn [snd]; calls_done).
  all: unfold bind, fetchExternalContent, createDownloadUrl, try_catch, ret;
    destruct (fetch H w (d :: url)) as [e|[|] status statusText [[|b body]|e]];
    cbn [negb snd]; rewrite ?TraceFacts.beautify_world;
      repeat match goal with
             | |- context [createObjectURL H ?a ?b ?c] =>
               destruct (createObjectURL H a b c)
             | |- context [base64_utf8 H ?a] => destruct (base64_utf8 H a)
             end; cbn [snd]; calls_done.
Qed.

Lemma outcome_calls (asset : Asset) (options : DownloadOptions) (w : World) :
  exists evs,
    snd (outcome H asset options w) = w ++ evs
    /\ Forall (event_of asset) evs.
Proof.
  destruct (resolve_url_calls asset options w) as (evs & Ew & HF).
  unfold outcome, try_download. unfold_monad.
  destruct (resolve_url H asset options w) as [[url|e] w0]; cbn [snd] in Ew; subst w0.
  - fold (request_for asset url).
    destruct (downloads_download H (w ++ evs) _) as [id|e].
    + destruct (startsWith (js"blob:") url) eqn:Hb; cbn [snd];
        (eexists; split; [rewrite <- !app_assoc; reflexivity|]);
        apply Forall_app; (split; [exact HF|]).
      * constructor; [now exists url|].
        constructor; [now split|]. constructor; [reflexivity|constructor].
      * constructor; [now exists url|].
        constructor; [reflexivity|constructor].
    + cbn [snd]. eexists. split; [rewrite <- !app_assoc; reflexivity|].
      apply Forall_app. split; [exact HF|].
      constructor; [now exists url|constructor].
  - exists evs. now split.
Qed.

(** X16. Every call a batch makes to the host is the pause of 200 ms or
    belongs to one of its descriptors: a fetch is of its URL, a Blob has
    the MIME type of its type, a download is asked for under
    [evil-downloads/] and its file name, without a dialog and with
    [uniquify], a release is of a [blob:] URL after 5 s and the check of
    the path comes after 1 s. *)
Theorem batch_calls_belong_to_assets (options : DownloadOptions) :
  forall (assets : list Asset) (w : World),
  exists results evs,
    downloadFiles H assets options w = (Normal results, w ++ evs)
    /\ Forall (fun ev => ev = pause \/ exists a, In a assets /\ event_of a ev) evs.
Proof.
  intros assets w. rewrite downloadFiles_batch.
  exists (fst (batch H options assets w)).
  enough (exists evs, snd (batch H options assets w) = w ++ evs
                      /\ Forall (fun ev => ev = pause
                                           \/ exists a, In a assets /\ event_of a ev) evs)
    as (evs & E & HF) by (exists evs; now rewrite E).
  revert w. induction assets as [|asset rest IH]; intros w; cbn [batch].
  - exists []. now rewrite app_nil_r.
  - destruct (outcome_calls asset options w) as (ev1 & E1 & H1).
    destruct (outcome H asset options w) as [result w1]. cbn [snd] in E1. subst w1.
    destruct (IH ((w ++ ev1) ++ [pause])) as (ev2 & E2 & H2).
    destruct (batch H options rest ((w ++ ev1) ++ [pause])) as [results w2].
    cbn [snd] in *. subst w2.
    exists (ev1 ++ pause :: ev2). split; [now rewrite <- !app_assoc|].
    apply Forall_app. split.
    + eapply Forall_impl; [|exact H1]. intros ev He. right. exists asset.
      split; [now left|exact He].
    + constructor; [now left|].
      eapply Forall_impl; [|exact H2]. intros ev [->|(a & Ha & He)]; [now left|].
      right. exists a. split; [now right|exact He].
Qed.

End Calls.

End CallFacts.

Module TextFacts.

Import Background FormatSpec Samples FormatterFacts TextSpec.

Lemma visible_app (a b : jsstr) : visible (a ++ b) = visible a ++ visible b.
Proof. apply filter_app. Qed.

Lemma visible_blank (w : jsstr) : blank w = true -> visible w = [].
Proof.
  induction w as [|c w IH]; [reflexivity|].
  cbn [blank forallb visible filter]. intros Hb.
  apply andb_prop in Hb as [Hc Hw]. rewrite Hc. cbn [negb]. now apply IH.
Qed.

Lemma visible_trim (s : jsstr) : visible (trim s) = visible s.
Proof.
  destruct (trim_split s) as (w1 & w2 & E & B1 & B2).
  transitivity (visible (w1 ++ trim s ++ w2)); [|now rewrite <- E].
  now rewrite !visible_app, (visible_blank w1 B1), (visible_blank w2 B2), app_nil_r.
Qed.

Lemma visible_join (lines : list jsstr) :
  visible (join_lf lines) = concat (map visible lines).
Proof.
  induction lines as [|l rest IH]; [reflexivity|].
  destruct rest as [|l2 rest].
  - cbn. now rewrite app_nil_r.
  - rewrite join_lf_cons by discriminate.
    rewrite visible_app. cbn [map concat]. f_equal.
    change (visible (lf :: join_lf (l2 :: rest))) with (visible (join_lf (l2 :: rest))).
    exact IH.
Qed.

Lemma visible_indent :
  forall lines level,
    concat (map visible (indent_lines level lines)) = concat (map visible lines).
Proof.
  induction lines as [|l rest IH]; intros level; [reflexivity|].
  cbn [indent_lines map concat].
  rewrite <- (visible_trim l).
  destruct (trim l) as [|c t]; cbn [map concat]; rewrite IH; [reflexivity|].
  f_equal. rewrite visible_app, visible_blank; [reflexivity|].
  apply blank_spaces, spaces_repeat.
Qed.

Lemma visible_squeeze_tail (lines : list jsstr) :
  concat (map visible (squeeze_tail lines)) = concat (map visible lines).
Proof.
  induction lines as [|l rest IH]; [reflexivity|].
  destruct rest as [|l2 rest]; [reflexivity|].
  rewrite squeeze_tail_cons by discriminate.
  destruct (blank l) eqn:Hb.
  - rewrite IH. cbn [map concat]. now rewrite (visible_blank l Hb).
  - cbn [map concat]. f_equal. exact IH.
Qed.

Lemma visible_squeeze (lines : list jsstr) :
  concat (map visible (squeeze lines)) = concat (map visible lines).
Proof.
  destruct lines as [|l rest]; [reflexivity|].
  cbn [squeeze map concat]. f_equal. apply visible_squeeze_tail.
Qed.

Lemma visible_snoc (a r : jsstr) (c : ascii) :
  visible (a ++ [c]) ++ visible r = visible a ++ visible (c :: r).
Proof.
  change (c :: r) with ([c] ++ r). now rewrite !visible_app, app_assoc.
Qed.

Lemma visible_pieces (ctx : jsstr) :
  forall s cur,
    concat (map visible (pieces ctx cur s)) = visible (rev cur) ++ visible s.
Proof.
  induction s as [|c r IH]; intros cur; cbn [pieces].
  - cbn. reflexivity.
  - destruct (Ascii.eqb c rbrace) eqn:Er.
    { apply Ascii.eqb_eq in Er. subst c. cbn [map concat]. rewrite IH.
      reflexivity. }
    destruct (is_lf c) eqn:El.
    { cbn [map concat]. rewrite IH. cbn [rev app].
      cbn [visible filter]. now rewrite (is_lf_space _ El). }
    destruct (Ascii.eqb c semicolon || Ascii.eqb c lbrace
              || Ascii.eqb c comma && starts_ws_ident (r ++ ctx)).
    + cbn [map concat]. rewrite IH. cbn [rev app]. apply visible_snoc.
    + rewrite IH. cbn [rev]. apply visible_snoc.
Qed.

(** X17. The heuristic formatter changes white space only: without its
    white space, the formatted text is the code given. *)
Theorem basicFormat_keeps_text (code : jsstr) :
  visible (basicFormat code) = visible code.
Proof.
  unfold basicFormat.
  rewrite visible_join, visible_indent, split_formatted, visible_squeeze.
  now rewrite visible_pieces.
Qed.

(** X18. The last replacement, of three line feeds or more, never finds
    a match: the replacement before it leaves no two line feeds in a row. *)
Theorem triple_line_feed_rule_is_idle (code : jsstr) :
  no_lf_pair (broken code) = true /\ formatted code = broken code.
Proof.
  assert (Hp : no_lf_pair (broken code) = true).
  { unfold broken. eapply no_lf_pair_collapse_bounded. apply Nat.le_refl. }
  split; [exact Hp|].
  unfold formatted. now apply replace_runs_no_lf_pair.
Qed.

(** X19. A text in which the formatter finds no place to break (no
    [;], [{], [}] or line feed, and no comma before an identifier) is
    only trimmed. *)
Theorem basicFormat_unbroken (code : jsstr) :
  plain [] code = true -> basicFormat code = trim code.
Proof.
  intros Hp. rewrite basicFormat_lines.
  pose proof (@pieces_plain [] [] code [] Hp) as E.
  rewrite !app_nil_r in E. rewrite E. cbn [pieces map squeeze squeeze_tail].
  rewrite rev_involutive. cbn [indent_lines]. rewrite trim_trim.
  destruct (trim code) as [|c t]; [reflexivity|].
  cbn [join_lf]. now destruct (includes (js"}") (c :: t)).
Qed.

Lemma basicFormat_unbroken_witness :
  basicFormat (js"  return a + b  ") = trim (js"  return a + b  ").
Proof.
  apply basicFormat_unbroken. reflexivity.
Defined.

(** ** The lines of the output *)

Lemma indent_lines_depth :
  forall lines level,
    Forall (fun line => exists n, line = repeat_str (js"  ") n ++ trim line)
           (indent_lines level lines).
Proof.
  induction lines as [|l rest IH]; intros level; [constructor|].
  cbn [indent_lines].
  destruct (trim l) as [|c t] eqn:E.
  - constructor; [now exists 0|apply IH].
  - constructor; [|apply IH].
    eexists. f_equal.
    rewrite trim_blank_prefix by apply blank_spaces, spaces_repeat.
    now rewrite <- E, trim_trim.
Qed.

Lemma plain_In (ctx t : jsstr) (c : ascii) :
  plain ctx t = true -> In c t -> breaker c = false /\ is_lf c = false.
Proof.
  induction t as [|d t IH]; [contradiction|].
  cbn [plain]. intros Hp Hi. apply andb_prop in Hp as [Hd Ht].
  destruct Hi as [->|Hi]; [|now apply IH].
  apply negb_true_iff in Hd. unfold breaker.
  destruct (Ascii.eqb c rbrace), (is_lf c), (Ascii.eqb c semicolon),
    (Ascii.eqb c lbrace); cbn in Hd |- *; try discriminate; now split.
Qed.

Lemma spaces_In (ind : jsstr) (c : ascii) :
  forallb (fun c => Ascii.eqb c " "%char) ind = true -> In c ind ->
  breaker c = false /\ is_lf c = false.
Proof.
  intros Hs Hi. rewrite forallb_forall in Hs. specialize (Hs c Hi).
  destruct (space_char c Hs) as (Hr & Hl & Hsc & Hlb & _).
  unfold breaker. now rewrite Hr, Hsc, Hlb.
Qed.

Lemma snoc_split (A : Type) (a b x : list A) (c d : A) :
  a ++ c :: b = x ++ [d] -> (b = [] /\ a = x /\ c = d) \/ In c x.
Proof.
  intros E. destruct (exists_last (l := c :: b)) as (b' & e & Eb); [discriminate|].
  destruct b as [|b0 b].
  - left. change (a ++ [c] = x ++ [d]) in E.
    apply app_inj_tail in E as [-> ->]. now repeat split.
  - right. rewrite Eb, app_assoc in E. apply app_inj_tail in E as [<- _].
    destruct b' as [|c' b'].
    + destruct b; discriminate.
    + injection Eb as -> _. apply in_or_app. right. now left.
Qed.

Lemma settled_line (q line : jsstr) :
  indented q line -> settled q -> ~ In lf line /\ broken_line line.
Proof.
  intros (ind & -> & Hs) [->|[->|(t & c0 & -> & Hc & Hr & Hp & _)]].
  - rewrite app_nil_r. split.
    + intros Hi. now destruct (spaces_In ind lf Hs Hi).
    + intros a b c E Hb.
      assert (Hi : In c ind) by (rewrite E; apply in_or_app; right; now left).
      destruct (spaces_In ind c Hs Hi). congruence.
  - split.
    + intros Hi. apply in_app_or in Hi as [Hi|[Hi|[]]]; [|discriminate].
      now destruct (spaces_In ind lf Hs Hi).
    + intros a b c E Hb. symmetry in E. apply snoc_split in E as [(-> & -> & ->)|Hi].
      * split; [reflexivity|]. intros _. now apply blank_spaces.
      * destruct (spaces_In ind c Hs Hi). congruence.
  - rewrite app_assoc. split.
    + intros Hi. apply in_app_or in Hi as [Hi|[Hi|[]]].
      * apply in_app_or in Hi as [Hi|Hi].
        -- now destruct (spaces_In ind lf Hs Hi).
        -- now destruct (plain_In [c0] t lf Hp Hi).
      * subst c0. discriminate.
    + intros a b c E Hb. symmetry in E. apply snoc_split in E as [(-> & _ & ->)|Hi].
      * split; [reflexivity|]. intros ->. discriminate.
      * apply in_app_or in Hi as [Hi|Hi].
        -- destruct (spaces_In ind c Hs Hi). congruence.
        -- destruct (plain_In [c0] t c Hp Hi). congruence.
Qed.

Lemma split_join_lf :
  forall lines, lines <> [] -> Forall (fun l => ~ In lf l) lines ->
                split_lf (join_lf lines) = lines.
Proof.
  assert (Hone : forall l, ~ In lf l -> split_lf l = [l]).
  { induction l as [|c l IH]; intros Hn; [reflexivity|].
    rewrite split_lf_cons.
    - rewrite IH; [reflexivity|]. intros Hi. apply Hn. now right.
    - destruct (is_lf c) eqn:El; [|reflexivity].
      exfalso. apply Hn. left. now apply is_lf_eq. }
  induction lines as [|l rest IH]; intros Hne HF; [contradiction|].
  inversion HF as [|? ? Hl Hrest]; subst.
  destruct rest as [|l2 rest].
  - cbn [join_lf]. now apply Hone.
  - rewrite join_lf_cons by discriminate.
    rewrite split_lf_app, Hone by assumption.
    cbn [app]. f_equal. apply IH; [discriminate|assumption].
Qed.

(** X20. The lines of the formatted text are the lines the formatter
    joined.  Each is its trimmed text behind a whole number of two-space
    indents, so that no line ends in white space; a [;], [{] or [}] is
    always the last character of its line, and a [}] stands alone on its
    line. *)
Theorem output_lines_shape (code : jsstr) :
  split_lf (basicFormat code) = indent_lines 0 (split_lf (formatted code))
  /\ Forall (fun line =>
               (exists n, line = repeat_str (js"  ") n ++ trim line)
               /\ broken_line line)
            (split_lf (basicFormat code)).
Proof.
  assert (HF : Forall (fun line => ~ In lf line /\ broken_line line)
                      (indent_lines 0 (split_lf (formatted code)))).
  { pose proof (indent_lines_indented (split_lf (formatted code)) 0) as Hi.
    destruct (first_pass_lines code) as (Hs & _).
    rewrite <- map_trim_squeeze, <- split_formatted in Hs.
    revert Hi Hs. generalize (indent_lines 0 (split_lf (formatted code))).
    generalize (map trim (split_lf (formatted code))).
    intros qs lines Hi. induction Hi as [|q line qs lines Hq Hi IH]; intros Hs.
    - constructor.
    - inversion Hs; subst. constructor; [now apply settled_line with q|now apply IH]. }
  assert (E : split_lf (basicFormat code) = indent_lines 0 (split_lf (formatted code))).
  { unfold basicFormat. apply split_join_lf.
    - pose proof (split_lf_nonempty (formatted code)) as Hne.
      destruct (split_lf (formatted code)) as [|l rest]; [contradiction|].
      cbn [indent_lines]. destruct (trim l); discriminate.
    - eapply Forall_impl; [|exact HF]. now intros l [Hl _]. }
  split; [exact E|]. rewrite E.
  pose proof (indent_lines_depth (split_lf (formatted code)) 0) as Hd.
  revert HF Hd. generalize (indent_lines 0 (split_lf (formatted code))).
  induction l as [|line lines IH]; intros HF Hd; [constructor|].
  inversion HF; inversion Hd; subst.
  constructor; [|now apply IH]. split; [assumption|]. tauto.
Qed.

End TextFacts.

Module PopupFacts.

Import Scanner Background Spec Samples MoreSamples BackgroundFacts ContentListener.
Import Popup PopupSpec PopupSamples.

Ltac unfold_popup :=
  unfold and_then, catching, finally, write, send, raise, unit_ in *.

Lemma state_eta (s : State) : {| document := document s; sent := sent s |} = s.
Proof. now destruct s. Qed.

Lemma error_eta (e : JsError) : Error (message e) = e.
Proof. now destruct e. Qed.

Section Runs.

Variable B : Browser.

Lemma scanPageAssets_run (s : State) :
  scanPageAssets B s =
  (match scan_outcome B (document s) with
   | inl m => Throw (Error m)
   | inr assets => Normal assets
   end,
   {| document := document s; sent := sent s ++ scan_sent B (document s) |}).
Proof.
  unfold scanPageAssets, getCurrentTab, scan_outcome, scan_sent. unfold_popup.
  destruct (tabs_query B) as [[|tab tabs]|e]; cbn [hd_error].
  - now rewrite app_nil_r, state_eta, error_eta.
  - cbn [document sent].
    destruct (lastError _) as [m|]; [reflexivity|].
    destruct (response _) as [r|]; [|reflexivity].
    now destruct (scan_success r).
  - now rewrite app_nil_r, state_eta, error_eta.
Qed.

Lemma downloadAssets_run (assets : list Asset) (s : State) :
  downloadAssets B assets s =
  (match download_outcome B assets (document s) with
   | inl m => Throw (Error m)
   | inr r => Normal r
   end,
   {| document := document s;
      sent := sent s ++ [DownloadAssets assets (checked_options (document s))] |}).
Proof.
  unfold downloadAssets, download_outcome. unfold_popup. cbn [document sent].
  destruct (lastError _) as [m|]; [reflexivity|].
  destruct (response _) as [r|]; [|reflexivity].
  now destruct (download_success r).
Qed.

Lemma scan_outcome_options (d d' : Document) :
  checked_options d' = checked_options d ->
  scan_outcome B d' = scan_outcome B d /\ scan_sent B d' = scan_sent B d.
Proof.
  intros E. unfold scan_outcome, scan_sent. now rewrite E.
Qed.


End Runs.

Ltac run_popup B s :=
  unfold processDownload; unfold_popup;
  cbn [document sent]; rewrite ?scanPageAssets_run; cbn [document sent];
  destruct (@scan_outcome_options
              B (document s)
              (hideStatus (setDownloadButtonState false ScanningLabel (document s)))
              eq_refl) as [-> ->].

Section Process.

Variable B : Browser.

Ltac ready_with msgs :=
  eexists _, msgs; split; [reflexivity|]; cbn [document sent];
  split; [now split|]; split; [reflexivity|];
  split; [first [now left|now right]|]; split; [reflexivity|];
  split; [now rewrite <- ?app_assoc|].

(** X21. [processDownload] never throws, and whatever the browser
    answers it ends with the button enabled under its default text, with
    a status shown as an error or a success, and with the check boxes as
    they were; it sends the scan request at most once and the download
    request at most once. *)
Theorem processDownload_ends_ready (s : State) :
  exists s' msgs,
    processDownload B s = (Normal tt, s')
    /\ button_ready (document s')
    /\ status_display (document s') = js"block"
    /\ (status_className (document s') = js"status error"
        \/ status_className (document s') = js"status success")
    /\ checked_options (document s') = checked_options (document s)
    /\ sent s' = sent s ++ msgs
    /\ length msgs <= 2
    /\ length (filter is_download_request msgs) <= 1.
Proof.
  run_popup B s.
  assert (Hl : length (scan_sent B (document s)) <= 1).
  { unfold scan_sent. destruct (tabs_query B) as [[|? ?]|?]; cbn; lia. }
  assert (Hd : filter is_download_request (scan_sent B (document s)) = []).
  { unfold scan_sent. now destruct (tabs_query B) as [[|? ?]|?]. }
  destruct (scan_outcome B (document s)) as [m|[[|a assets]|]].
  1,2,4: ready_with (scan_sent B (document s)); rewrite Hd; cbn; lia.
  rewrite downloadAssets_run. cbn [document sent].
  set (request := DownloadAssets _ _).
  assert (Hl2 : length (scan_sent B (document s) ++ [request]) <= 2)
    by (rewrite length_app; cbn; lia).
  assert (Hd2 : length (filter is_download_request
                               (scan_sent B (document s) ++ [request])) <= 1)
    by (rewrite filter_app, Hd; cbn; lia).
  destruct (download_outcome B _ _) as [m|r].
  - ready_with (scan_sent B (document s) ++ [request]). now split.
  - destruct (download_summary r) as [summary|].
    + destruct (failed summary =? 0);
        ready_with (scan_sent B (document s) ++ [request]); now split.
    + ready_with (scan_sent B (document s) ++ [request]). now split.
Qed.

(** X22. When the scan fails, the status shows [Error:] and the message
    (of the transport error first, else of the answer, else [Failed to
    scan assets]); when it delivers no asset, the status shows [No
    downloadable assets found on this page].  In both cases no download
    is requested and the file count is left as it was. *)
Theorem no_download_without_assets (s : State) :
  let d := document s in
  forall shown,
    match scan_outcome B d with
    | inl m => shown = js"Error: " ++ m
    | inr None | inr (Some []) => shown = js"No downloadable assets found on this page"
    | inr (Some (_ :: _)) => False
    end ->
    exists s',
      processDownload B s = (Normal tt, s')
      /\ status_shows shown (js"error") (document s')
      /\ sent s' = sent s ++ scan_sent B d
      /\ filter is_download_request (scan_sent B d) = []
      /\ fileCount_textContent (document s') = fileCount_textContent d
      /\ fileCount_display (document s') = fileCount_display d.
Proof.
  intros d shown Hs. subst d. run_popup B s.
  assert (Hd : filter is_download_request (scan_sent B (document s)) = []).
  { unfold scan_sent. now destruct (tabs_query B) as [[|? ?]|?]. }
  destruct (scan_outcome B (document s)) as [m|[[|a assets]|]];
    try contradiction; subst shown;
      (eexists; cbn [document sent]; repeat split; assumption).
Qed.


End Process.

Lemma no_download_without_assets_witness :
  exists s',
    processDownload deaf_browser fresh_popup = (Normal tt, s')
    /\ status_shows
         (js"Error: Could not establish connection. Receiving end does not exist.")
         (js"error") (document s')
    /\ sent s' = sent fresh_popup ++ scan_sent deaf_browser fresh_document
    /\ filter is_download_request (scan_sent deaf_browser fresh_document) = []
    /\ fileCount_textContent (document s') = fileCount_textContent fresh_document
    /\ fileCount_display (document s') = fileCount_display fresh_document.
Proof.
  apply (@no_download_without_assets deaf_browser fresh_popup). reflexivity.
Defined.


Section EndToEnd.

Variable parseURL : jsstr -> option URL.
Variable page : Page.
Variable H : Host.
Variable type_error : jsstr -> JsError.


End EndToEnd.

Lemma startsWith_prefix (p q : jsstr) :
  forall s, startsWith (p ++ q) s = true -> startsWith p s = true.
Proof.
  induction p as [|c p IH]; intros s; [reflexivity|].
  destruct s as [|d s]; [discriminate|]. cbn [app startsWith].
  intros Hs. apply andb_prop in Hs as [Hc Hp]. rewrite Hc. now apply IH.
Qed.

(** X25. The check at start-up: the popup is left as it was exactly when
    a tab is found whose address starts with [http] (the test for [https]
    adds nothing); otherwise an error is shown and the button is disabled,
    after which the Enter key does nothing.  No message is sent. *)
Theorem startup_check (B : Browser) (s : State) :
  exists s',
    checkCurrentTab B s = (Normal tt, s')
    /\ sent s' = sent s
    /\ if on_web_page B then s' = s
       else downloadBtn_disabled (document s') = true
            /\ status_className (document s') = js"status error"
            /\ status_display (document s') = js"block"
            /\ forall key, onKeydown B key s' = (Normal tt, s').
Proof.
  assert (Hoff : forall s0 : State,
             downloadBtn_disabled (document s0) = true ->
             forall key, onKeydown B key s0 = (Normal tt, s0)).
  { intros s0 Hd key. unfold onKeydown. now rewrite Hd, andb_false_r. }
  unfold checkCurrentTab, getCurrentTab, on_web_page. unfold_popup.
  destruct (tabs_query B) as [[|tab tabs]|e]; cbn [hd_error].
  1,3: eexists; repeat split; now apply Hoff.
  destruct (tab_url tab) as [url|].
  2: eexists; repeat split; now apply Hoff.
  destruct (startsWith (js"http") url) eqn:Eh; cbn [negb andb].
  - now exists s.
  - destruct (startsWith (js"https") url) eqn:Es.
    + apply (startsWith_prefix (js"http") (js"s")) in Es. congruence.
    + cbn [negb]. eexists; repeat split; now apply Hoff.
Qed.

(** X26. The options saved when a check box changes are the ones loaded
    when the popup opens next, whatever was stored before; with nothing
    stored both boxes are checked.  Saving and loading at once leaves the
    document as it is. *)
Theorem saved_options_are_restored (d d' : Document) (st : Storage) :
  checked_options (loadOptions (saveOptions d st) d') = checked_options d
  /\ checked_options
       (loadOptions {| stored_prettifyJs := None; stored_includeInline := None |} d')
     = {| opt_includeInline := true; opt_prettifyJs := true |}
  /\ loadOptions (saveOptions d st) d = d.
Proof.
  repeat split. now destruct d.
Qed.

End PopupFacts.
